(** * PII detector: detection and masking of personal data in records

    A shallow embedding of the class [PIIDetector] of
    [detector_SaraswathideviS.py] (standalone matcher, contextual heuristics,
    combinatorial detector, masking transform, record processor), together
    with the part of the Python runtime those methods rely on: [str] values
    and their methods, truthiness, [dict] in insertion order, the [re]
    patterns the class compiles, and the exceptions raised by indexing. *)

From Stdlib Require Import Strings.String Strings.Ascii.
From Stdlib Require Import Lists.List Bool.Bool Arith.PeanoNat ZArith.ZArith.
From Stdlib Require Import Numbers.DecimalString micromega.Lia.
Import ListNotations.


(* ===================================================================== *)
(** * The Python runtime the detector uses *)
(* ===================================================================== *)

(** A Python [str] is a sequence of code points.  The embedding covers the
    code points 0..255 (ASCII and Latin-1); the character predicates below
    are CPython's Unicode tables restricted to that range. *)
Definition pystr := list ascii.

Declare Scope pystr_scope.
Delimit Scope pystr_scope with py.
Set Warnings "-via-type-remapping,-via-type-mismatch".
String Notation pystr string_of_list_byte list_byte_of_string
  (via string mapping [[nil] => EmptyString, [cons] => String]) : pystr_scope.
Set Warnings "via-type-remapping,via-type-mismatch".
Bind Scope pystr_scope with pystr.
Open Scope pystr_scope.

Module Py.

Definition code (c : ascii) : nat := nat_of_ascii c.

Definition in_range (lo hi : nat) (c : ascii) : bool :=
  (lo <=? code c) && (code c <=? hi).

Definition is_code (n : nat) (c : ascii) : bool := code c =? n.

(** [str.isspace] on one character: TAB..CR, FS..US, SPACE, NEL, NBSP. *)
Definition isspace (c : ascii) : bool :=
  in_range 9 13 c || in_range 28 32 c || is_code 133 c || is_code 160 c.

(** Unicode decimal digit (category Nd): what [\d] matches. *)
Definition isdecimal (c : ascii) : bool := in_range 48 57 c.

(** [str.isdigit] on one character: decimals and the superscripts 2, 3, 1. *)
Definition isdigit (c : ascii) : bool :=
  isdecimal c || is_code 178 c || is_code 179 c || is_code 185 c.

(** [str.isnumeric] on one character: digits and the vulgar fractions. *)
Definition isnumeric (c : ascii) : bool := isdigit c || in_range 188 190 c.

(** [str.isalpha] on one character (the letter categories). *)
Definition isalpha (c : ascii) : bool :=
  in_range 65 90 c || in_range 97 122 c
  || is_code 170 c || is_code 181 c || is_code 186 c
  || in_range 192 214 c || in_range 216 246 c || in_range 248 255 c.

Definition isalnum (c : ascii) : bool :=
  isalpha c || isdecimal c || isdigit c || isnumeric c.

(** A word character of [re]: alphanumeric or underscore ([\w]). *)
Definition isword (c : ascii) : bool := isalnum c || is_code 95 c.

(** [str.lower] on one character. *)
Definition lower_char (c : ascii) : ascii :=
  if in_range 65 90 c || in_range 192 214 c || in_range 216 222 c
  then ascii_of_nat (code c + 32) else c.

Definition str_eqb (a b : pystr) : bool :=
  if list_eq_dec ascii_dec a b then true else false.

Definition null {A} (l : list A) : bool :=
  match l with [] => true | _ => false end.

(** [len(s)]. *)
Definition len {A} (l : list A) : nat := List.length l.

(** [s.isdigit()] and [s.isalpha()]: non-empty and every character passes. *)
Definition str_isdigit (s : pystr) : bool := negb (null s) && forallb isdigit s.
Definition str_isalpha (s : pystr) : bool := negb (null s) && forallb isalpha s.

(** [s.lower()]. *)
Definition str_lower (s : pystr) : pystr := map lower_char s.

(** [s.strip()]: leading and trailing whitespace removed. *)
Fixpoint lstrip (s : pystr) : pystr :=
  match s with
  | [] => []
  | c :: t => if isspace c then lstrip t else s
  end.

Definition rstrip (s : pystr) : pystr := rev (lstrip (rev s)).

Definition strip (s : pystr) : pystr := rstrip (lstrip s).

(** [s.split()]: the maximal runs of non-whitespace characters, in order. *)
Fixpoint split (s : pystr) : list pystr :=
  match s with
  | [] => []
  | c :: t =>
      if isspace c then split t
      else match t with
           | [] => [[c]]
           | d :: _ =>
               if isspace d then [c] :: split t
               else match split t with
                    | w :: ws => (c :: w) :: ws
                    | [] => [[c]]
                    end
           end
  end.

(** [s.split(sep)] for a one-character separator: one more part than there
    are occurrences of [sep]; parts may be empty. *)
Fixpoint split_on (sep : ascii) (s : pystr) : list pystr :=
  match s with
  | [] => [[]]
  | c :: t =>
      if Ascii.eqb c sep then [] :: split_on sep t
      else match split_on sep t with
           | w :: ws => (c :: w) :: ws
           | [] => [[c]]
           end
  end.

(** [s.replace(old, new)] for a one-character [old]. *)
Definition replace (old : ascii) (new : pystr) (s : pystr) : pystr :=
  flat_map (fun c => if Ascii.eqb c old then new else [c]) s.

(** [sub in s] for a one-character [sub]. *)
Definition contains_char (c : ascii) (s : pystr) : bool :=
  existsb (Ascii.eqb c) s.

Fixpoint startswith (p s : pystr) : bool :=
  match p, s with
  | [], _ => true
  | _ :: _, [] => false
  | a :: p', b :: s' => Ascii.eqb a b && startswith p' s'
  end.

(** [sub in s]: [sub] occurs as a contiguous substring of [s]. *)
Fixpoint contains (sub s : pystr) : bool :=
  startswith sub s ||
  match s with
  | [] => false
  | _ :: t => contains sub t
  end.

(** Slices [s[:n]], [s[n:]] and [s[-n:]] for a literal [n >= 0]. *)
Definition slice_to (n : nat) (s : pystr) : pystr := firstn n s.
Definition slice_from (n : nat) (s : pystr) : pystr := skipn n s.
Definition slice_last (n : nat) (s : pystr) : pystr := skipn (len s - n) s.

(** ** Exceptions *)

Inductive exn := IndexError | KeyError.

Inductive res (A : Type) : Type :=
| Ok (a : A)
| Raise (e : exn).
Arguments Ok {A} a.
Arguments Raise {A} e.

Definition bind {A B} (m : res A) (f : A -> res B) : res B :=
  match m with
  | Ok a => f a
  | Raise e => Raise e
  end.

(** [l[i]] for a literal index; a negative [i] counts from the end. *)
Definition getitem {A} (l : list A) (i : Z) : res A :=
  let j := if (i <? 0)%Z then (i + Z.of_nat (len l))%Z else i in
  if (j <? 0)%Z then Raise IndexError
  else match nth_error l (Z.to_nat j) with
       | Some a => Ok a
       | None => Raise IndexError
       end.

(** [s[i]] on a [str] is the one-character string at [i]. *)
Definition str_getitem (s : pystr) (i : Z) : res pystr :=
  bind (getitem s i) (fun c => Ok [c]).

(** ** Values *)

(** The scalars a parsed record holds: [None], booleans, integers, strings. *)
Inductive pyobj :=
| VNone
| VBool (b : bool)
| VInt (z : Z)
| VStr (s : pystr).

(** Truth value of an object, as tested by [if value] and [not value]. *)
Definition truthy (v : pyobj) : bool :=
  match v with
  | VNone => false
  | VBool b => b
  | VInt z => negb (z =? 0)%Z
  | VStr s => negb (null s)
  end.

(** [str(value)]. *)
Definition str (v : pyobj) : pystr :=
  match v with
  | VNone => "None"
  | VBool true => "True"
  | VBool false => "False"
  | VInt z => list_ascii_of_string (NilZero.string_of_int (Z.to_int z))
  | VStr s => s
  end.

Definition isinstance_str (v : pyobj) : bool :=
  match v with VStr _ => true | _ => false end.

(** ** Dictionaries *)

(** A [dict] in insertion order.  A well-formed dictionary has no key twice
    ([wf_dict]). *)
Definition dict := list (pystr * pyobj).

Definition keys (d : dict) : list pystr := map fst d.

Definition wf_dict (d : dict) : Prop := NoDup (keys d).

(** [k in d]. *)
Definition dict_contains (k : pystr) (d : dict) : bool :=
  existsb (fun kv => str_eqb (fst kv) k) d.

Definition dict_find (k : pystr) (d : dict) : option pyobj :=
  option_map snd (find (fun kv => str_eqb (fst kv) k) d).

(** [d[k]]. *)
Definition dict_getitem (d : dict) (k : pystr) : res pyobj :=
  match dict_find k d with
  | Some v => Ok v
  | None => Raise KeyError
  end.

(** [d[k] = v]: a present key keeps its position, a new key goes last. *)
Fixpoint dict_setitem (k : pystr) (v : pyobj) (d : dict) : dict :=
  match d with
  | [] => [(k, v)]
  | (k', v') :: t =>
      if str_eqb k' k then (k, v) :: t else (k', v') :: dict_setitem k v t
  end.

End Py.

Import Py.

Notation "x <- m ;; k" := (bind m (fun x => k))
  (at level 61, m at next level, right associativity).

(* ===================================================================== *)
(** * Regular expressions *)
(* ===================================================================== *)

Module Re.

(** The members of a bracketed set [[...]]; [\d] and [\w] are sets too. *)
Inductive set_item :=
| Chr (c : ascii)
| Rng (lo hi : ascii)
| Digit
| Word.

Definition cset := list set_item.

Definition item_mem (c : ascii) (it : set_item) : bool :=
  match it with
  | Chr d => Ascii.eqb c d
  | Rng lo hi => in_range (code lo) (code hi) c
  | Digit => isdecimal c
  | Word => isword c
  end.

Definition mem (cs : cset) (c : ascii) : bool := existsb (item_mem c) cs.

(** Patterns.  Every quantifier of the detector's patterns applies to a
    single-character set, which is what [Rep] repeats: [x+] is
    [Rep x 1 None], [x{n}] is [Rep x n (Some n)], [x{n,}] is [Rep x n None]. *)
Inductive regex :=
| Bol                                           (* ^ *)
| Eol                                           (* $ *)
| Boundary                                      (* \b *)
| One (cs : cset)
| Rep (cs : cset) (lo : nat) (hi : option nat)
| Seq (r1 r2 : regex)
| Alt (r1 r2 : regex).

(** Number of consecutive members of [cs] at the front of [s]. *)
Fixpoint run (cs : cset) (s : pystr) : nat :=
  match s with
  | c :: t => if mem cs c then S (run cs t) else 0
  | [] => 0
  end.

Definition word_at (s : pystr) (i : nat) : bool :=
  match nth_error s i with
  | Some c => isword c
  | None => false
  end.

(** [\b] at position [i]: exactly one side is a word character. *)
Definition boundary (s : pystr) (i : nat) : bool :=
  xorb (match i with 0 => false | S j => word_at s j end) (word_at s i).

(** [$] at position [i]: the end of the string, or just before a newline
    that ends the string. *)
Definition at_eol (s : pystr) (i : nat) : bool :=
  (i =? len s)
  || ((S i =? len s) &&
      match nth_error s i with
      | Some c => is_code 10 c
      | None => false
      end).

(** [ends r s i]: the positions at which a match of [r] that starts at
    position [i] of [s] can end. *)
Fixpoint ends (r : regex) (s : pystr) (i : nat) : list nat :=
  match r with
  | Bol => if i =? 0 then [i] else []
  | Eol => if at_eol s i then [i] else []
  | Boundary => if boundary s i then [i] else []
  | One cs =>
      match nth_error s i with
      | Some c => if mem cs c then [S i] else []
      | None => []
      end
  | Rep cs lo hi =>
      let n := run cs (skipn i s) in
      let top := match hi with Some h => Nat.min h n | None => n end in
      map (fun j => i + j) (seq lo (S top - lo))
  | Seq r1 r2 => flat_map (ends r2 s) (ends r1 s i)
  | Alt r1 r2 => ends r1 s i ++ ends r2 s i
  end.

(** [pattern.match(s) is not None]: a match starting at position 0. *)
Definition matches (r : regex) (s : pystr) : bool := negb (null (ends r s 0)).

(** [re.search(pattern, s)] as a truth value: a match starting anywhere. *)
Definition search (r : regex) (s : pystr) : bool :=
  existsb (fun i => negb (null (ends r s i))) (seq 0 (S (len s))).

Definition lit (c : ascii) : regex := One [Chr c].
Definition plus (cs : cset) : regex := Rep cs 1 None.
Definition exactly (n : nat) (cs : cset) : regex := Rep cs n (Some n).
Definition at_least (n : nat) (cs : cset) : regex := Rep cs n None.

Fixpoint seqs (rs : list regex) : regex :=
  match rs with
  | [] => Rep [] 0 (Some 0)
  | [r] => r
  | r :: rs' => Seq r (seqs rs')
  end.

End Re.

Import Re.

(* ===================================================================== *)
(** * class PIIDetector *)
(* ===================================================================== *)

Module PIIDetector.

(** ** Patterns compiled by [__init__] *)

(** [^\d{10}$] *)
Definition phone_pattern : regex := seqs [Bol; exactly 10 [Digit]; Eol].

(** [^\d{12}$] *)
Definition aadhar_pattern : regex := seqs [Bol; exactly 12 [Digit]; Eol].

(** [^[A-Z]\d{7}$] *)
Definition passport_pattern : regex :=
  seqs [Bol; One [Rng "A" "Z"]; exactly 7 [Digit]; Eol].

(** [^[\w.-]+@[\w.-]+$|^\d{10}@\w+$] *)
Definition upi_pattern : regex :=
  Alt (seqs [Bol; plus [Word; Chr "."; Chr "-"]; lit "@";
             plus [Word; Chr "."; Chr "-"]; Eol])
      (seqs [Bol; exactly 10 [Digit]; lit "@"; plus [Word]; Eol]).

(** [^[A-Za-z0-9._%+-]+@[A-Za-z0-9.-]+\.[A-Z|a-z]{2,}$] *)
Definition email_local : cset :=
  [Rng "A" "Z"; Rng "a" "z"; Rng "0" "9";
   Chr "."; Chr "_"; Chr "%"; Chr "+"; Chr "-"].
Definition email_domain : cset :=
  [Rng "A" "Z"; Rng "a" "z"; Rng "0" "9"; Chr "."; Chr "-"].
Definition email_tld : cset := [Rng "A" "Z"; Chr "|"; Rng "a" "z"].
Definition email_pattern : regex :=
  seqs [Bol; plus email_local; lit "@"; plus email_domain; lit ".";
        at_least 2 email_tld; Eol].

(** The patterns [is_physical_address] searches for: [\d+] and [\b\d{6}\b]. *)
Definition number_pattern : regex := plus [Digit].
Definition pincode_pattern : regex := seqs [Boundary; exactly 6 [Digit]; Boundary].

(** [key in [k1, ..., kn]]. *)
Definition key_in (key : pystr) (ks : list pystr) : bool :=
  existsb (str_eqb key) ks.

(** ** is_standalone_pii *)

Definition is_standalone_pii (key : pystr) (value : pyobj) : bool :=
  if negb (truthy value) then false
  else
    let value_str := strip (str value) in
    if key_in key ["phone"; "contact"] then matches phone_pattern value_str
    else if str_eqb key "aadhar" then matches aadhar_pattern value_str
    else if str_eqb key "passport" then matches passport_pattern value_str
    else if str_eqb key "upi_id" then matches upi_pattern value_str
    else false.

(** ** is_full_name *)

Definition name_part_ok (part : pystr) : bool :=
  str_isalpha (replace "'" "" (replace "-" "" part)).

Definition is_full_name (value : pyobj) : bool :=
  match value with
  | VStr s =>
      let parts := split (strip s) in
      if 2 <=? len parts then forallb name_part_ok parts else false
  | _ => false
  end.

(** ** is_physical_address *)

Definition address_keywords : list pystr :=
  ["road"; "street"; "lane"; "avenue"; "nagar"; "colony"; "park"].

Definition is_physical_address (value : pyobj) : bool :=
  match value with
  | VStr s =>
      let value_lower := str_lower s in
      let has_number := search number_pattern s in
      let has_comma := contains_char "," s in
      let word_count := 5 <=? len (split s) in
      let has_pincode := search pincode_pattern s in
      let has_keyword :=
        existsb (fun keyword => contains keyword value_lower) address_keywords in
      (has_number && has_comma && word_count) || (has_pincode && has_keyword)
  | _ => false
  end.

(** ** detect_combinatorial_pii *)

(** [b and m], [m1 or m2]: the right operand is evaluated only when the left
    one does not decide. *)
Definition and_then (b : bool) (m : res bool) : res bool :=
  if b then m else Ok false.

Definition or_else (m1 m2 : res bool) : res bool :=
  b <- m1 ;; if b then Ok true else m2.

(** [k in data and data[k]], as a truth value. *)
Definition present (data : dict) (k : pystr) : res bool :=
  and_then (dict_contains k data) (v <- dict_getitem data k ;; Ok (truthy v)).

(** The test under which a [device_id] or [ip_address] key is appended. *)
Definition linked_to_identity (data : dict) : res bool :=
  ctx <- or_else (present data "name") (present data "email") ;;
  if ctx then
    or_else
      (and_then (dict_contains "name" data)
         (v <- dict_getitem data "name" ;; Ok (is_full_name (VStr (str v)))))
      (and_then (dict_contains "email" data)
         (v <- dict_getitem data "email" ;; Ok (matches email_pattern (str v))))
  else Ok false.

(** The body of the loop over [data.items()]: the keys it appends. *)
Definition combinatorial_step (data : dict) (key : pystr) (value : pyobj)
  : res (list pystr) :=
  if negb (truthy value) then Ok []
  else
    let value_str := strip (str value) in
    if str_eqb key "name" && is_full_name (VStr value_str) then Ok ["name"]
    else if str_eqb key "email" && matches email_pattern value_str
    then Ok ["email"]
    else if str_eqb key "address" && is_physical_address (VStr value_str)
    then Ok ["address"]
    else if key_in key ["device_id"; "ip_address"] && truthy value then
      b <- linked_to_identity data ;; Ok (if b then [key] else [])
    else Ok [].

Fixpoint combinatorial_loop (data : dict) (items : list (pystr * pyobj))
    (found_pii : list pystr) : res (list pystr) :=
  match items with
  | [] => Ok found_pii
  | (key, value) :: rest =>
      new <- combinatorial_step data key value ;;
      combinatorial_loop data rest (found_pii ++ new)
  end.

Definition detect_combinatorial_pii (data : dict) : res (bool * list pystr) :=
  found_pii <- combinatorial_loop data data [] ;;
  Ok (2 <=? len found_pii, found_pii).

(** ** mask_value *)

Definition generic_mask : pystr := "[REDACTED_PII]".

Definition mask_value (key : pystr) (value : pyobj) : res pyobj :=
  if negb (truthy value) then Ok value
  else
    let value_str := strip (str value) in
    if key_in key ["phone"; "contact"]
       && (len value_str =? 10) && str_isdigit value_str
    then Ok (VStr (slice_to 2 value_str ++ "XXXXXX" ++ slice_last 2 value_str))
    else if str_eqb key "aadhar"
            && (len value_str =? 12) && str_isdigit value_str
    then Ok (VStr (slice_to 4 value_str ++ "XXXX" ++ slice_last 4 value_str))
    else if str_eqb key "email" && contains_char "@" value_str
            && (len (split_on "@" value_str) =? 2)
    then
      let parts := split_on "@" value_str in
      local <- getitem parts 0 ;;
      let masked_local :=
        if 2 <? len local then slice_to 2 local ++ "XXX" else "XXX" in
      domain <- getitem parts 1 ;;
      Ok (VStr (masked_local ++ "@" ++ domain))
    else if str_eqb key "name" && (2 <=? len (split value_str))
    then
      let parts := split value_str in
      first <- getitem parts 0 ;;
      last <- getitem parts (-1) ;;
      masked_first <-
        (if negb (null first)
         then c <- str_getitem first 0 ;; Ok (c ++ "XXX") else Ok "XXX"%py) ;;
      masked_last <-
        (if negb (null last)
         then c <- str_getitem last 0 ;; Ok (c ++ "XXXX") else Ok "XXXX"%py) ;;
      Ok (VStr (masked_first ++ " " ++ masked_last))
    else if str_eqb key "address" && (15 <? len value_str)
    then Ok (VStr (slice_to 10 value_str ++ "... [REDACTED]"))
    else if str_eqb key "upi_id" && contains_char "@" value_str
            && (len (split_on "@" value_str) =? 2)
    then
      let parts := split_on "@" value_str in
      user_part <- getitem parts 0 ;;
      let masked_user :=
        if 3 <? len user_part then slice_to 3 user_part ++ "XXX" else "XXX" in
      domain <- getitem parts 1 ;;
      Ok (VStr (masked_user ++ "@" ++ domain))
    else if str_eqb key "passport" && (len value_str =? 8)
    then
      c0 <- str_getitem value_str 0 ;;
      if str_isalpha c0 && str_isdigit (slice_from 1 value_str)
      then Ok (VStr (c0 ++ "XXX" ++ slice_last 4 value_str))
      else Ok (VStr generic_mask)
    else Ok (VStr generic_mask).

(** ** process_record *)

(** First loop: standalone detection, field by field. *)
Fixpoint standalone_loop (items : list (pystr * pyobj))
    (redacted_data : dict) (is_pii : bool) : res (dict * bool) :=
  match items with
  | [] => Ok (redacted_data, is_pii)
  | (key, value) :: rest =>
      if truthy value && is_standalone_pii key value then
        masked <- mask_value key (VStr (str value)) ;;
        standalone_loop rest (dict_setitem key masked redacted_data) true
      else
        standalone_loop rest (dict_setitem key value redacted_data) is_pii
  end.

(** Second loop: the fields reported by the combinatorial detector. *)
Fixpoint mask_found (record : dict) (found_fields : list pystr)
    (redacted_data : dict) : res dict :=
  match found_fields with
  | [] => Ok redacted_data
  | field :: rest =>
      go <- present record field ;;
      if go then
        v <- dict_getitem record field ;;
        masked <- mask_value field (VStr (str v)) ;;
        mask_found record rest (dict_setitem field masked redacted_data)
      else mask_found record rest redacted_data
  end.

Definition process_record (record : dict) : res (dict * bool) :=
  st <- standalone_loop record [] false ;;
  let '(redacted_data, is_pii) := st in
  if negb is_pii then
    det <- detect_combinatorial_pii record ;;
    let '(has_combinatorial, found_fields) := det in
    if has_combinatorial then
      redacted_data' <- mask_found record found_fields redacted_data ;;
      Ok (redacted_data', true)
    else Ok (redacted_data, is_pii)
  else Ok (redacted_data, is_pii).

End PIIDetector.

Import PIIDetector.

(* ===================================================================== *)
(** * format_json_for_csv *)
(* ===================================================================== *)

(** [json.dumps] on a record of scalars, with the default [ensure_ascii]:
    a string is written between quotes, with the quote and the backslash
    escaped by a backslash, the control characters BS, TAB, LF, FF, CR by
    their letter, and every other character outside SPACE..~ by its four
    hexadecimal digits. *)
Module Json.

Definition quote : ascii := "034".
Definition backslash : ascii := "092".

Definition hex_digit (n : nat) : ascii :=
  nth n ["0"; "1"; "2"; "3"; "4"; "5"; "6"; "7"; "8"; "9";
         "a"; "b"; "c"; "d"; "e"; "f"]%char "0"%char.

Definition escape_char (c : ascii) : pystr :=
  if Ascii.eqb c quote then [backslash; quote]
  else if Ascii.eqb c backslash then [backslash; backslash]
  else if is_code 8 c then [backslash; "b"%char]
  else if is_code 9 c then [backslash; "t"%char]
  else if is_code 10 c then [backslash; "n"%char]
  else if is_code 12 c then [backslash; "f"%char]
  else if is_code 13 c then [backslash; "r"%char]
  else if in_range 32 126 c then [c]
  else [backslash; "u"%char; "0"%char; "0"%char;
        hex_digit (code c / 16); hex_digit (code c mod 16)].

Definition encode_str (s : pystr) : pystr :=
  [quote] ++ flat_map escape_char s ++ [quote].

Definition encode_value (v : pyobj) : pystr :=
  match v with
  | VNone => "null"
  | VBool true => "true"
  | VBool false => "false"
  | VInt z => str (VInt z)
  | VStr s => encode_str s
  end.

(** [sep.join(parts)]. *)
Fixpoint join (sep : pystr) (parts : list pystr) : pystr :=
  match parts with
  | [] => []
  | [p] => p
  | p :: rest => p ++ sep ++ join sep rest
  end.

(** [json.dumps(data, separators=(item_separator, key_separator))]. *)
Definition dumps (item_separator key_separator : pystr) (data : dict) : pystr :=
  "{"
  ++ join item_separator
       (map (fun kv => encode_str (fst kv) ++ key_separator
                       ++ encode_value (snd kv)) data)
  ++ "}".

End Json.

Definition format_json_for_csv (data : dict) : pystr :=
  let json_str := Json.dumps "," ": " data in
  replace Json.quote [Json.quote; Json.quote] json_str.

(* ===================================================================== *)
(** * The specification's wording of the address heuristic *)
(* ===================================================================== *)

Module Spec.

(** Section 4.2 of the specification, clause by clause: contains a digit;
    contains a comma; has at least five whitespace-separated tokens;
    contains a six-digit standalone token; contains one of the keywords,
    case-insensitively. *)

Definition has_digit (s : pystr) : bool := existsb isdecimal s.

Definition has_comma (s : pystr) : bool := existsb (Ascii.eqb ",") s.

Definition token_count (s : pystr) : nat := len (split s).

Definition word_char_at (s : pystr) (i : nat) : bool :=
  match nth_error s i with
  | Some c => isword c
  | None => false
  end.

Definition word_char_before (s : pystr) (i : nat) : bool :=
  match i with
  | 0 => false
  | S j => word_char_at s j
  end.

Definition six_digits_at (s : pystr) (i : nat) : bool :=
  let w := firstn 6 (skipn i s) in (len w =? 6) && forallb isdecimal w.

(** Six digits in a row that no word character touches on either side. *)
Definition has_postal_code (s : pystr) : bool :=
  existsb
    (fun i => negb (word_char_before s i) && six_digits_at s i
              && negb (word_char_at s (i + 6)))
    (seq 0 (len s)).

Definition occurs_ignoring_case (keyword s : pystr) : bool :=
  existsb
    (fun i => str_eqb (map lower_char (firstn (len keyword) (skipn i s))) keyword)
    (seq 0 (S (len s))).

Definition has_keyword (s : pystr) : bool :=
  existsb (fun keyword => occurs_ignoring_case keyword s)
    ["road"; "street"; "lane"; "avenue"; "nagar"; "colony"; "park"].

Definition is_physical_address (s : pystr) : bool :=
  (has_digit s && has_comma s && (5 <=? token_count s))
  || (has_postal_code s && has_keyword s).

(** Section 4.2 of the specification, email validity: a local part of
    letters, digits and the characters . _ % + - ; an at sign; a domain
    with at least one dot; a top-level domain of at least 2 alphabetic
    characters. *)
Definition alphabetic_tld : cset := [Rng "A" "Z"; Rng "a" "z"].

Definition email_shape : regex :=
  seqs [Bol; plus email_local; lit "@"; plus email_domain; lit ".";
        at_least 2 alphabetic_tld; Eol].

Definition valid_email (s : pystr) : bool := matches email_shape s.

End Spec.

(* ===================================================================== *)
(** * Notions used to state and prove the properties *)
(* ===================================================================== *)

(** Case analysis over the 256 code points. *)
Ltac each_char c :=
  destruct c as [[] [] [] [] [] [] [] []]; vm_compute; try reflexivity;
  try discriminate; auto.

(** A string that [strip] leaves alone. *)
Definition trimmed (s : pystr) : Prop := lstrip s = s /\ lstrip (rev s) = rev s.

(** [span r s i j]: pattern [r] matches the characters of [s] from position
    [i] up to position [j]. *)
Fixpoint span (r : regex) (s : pystr) (i j : nat) : Prop :=
  match r with
  | Bol => i = 0 /\ j = i
  | Eol => at_eol s i = true /\ j = i
  | Boundary => boundary s i = true /\ j = i
  | One cs => exists c, nth_error s i = Some c /\ mem cs c = true /\ j = S i
  | Rep cs lo hi =>
      exists k, j = i + k /\ lo <= k /\ k <= run cs (skipn i s)
                /\ match hi with Some h => k <= h | None => True end
  | Seq r1 r2 => exists m, span r1 s i m /\ span r2 s m j
  | Alt r1 r2 => span r1 s i j \/ span r2 s i j
  end.

(** A string of exactly [n] decimal digits. *)
Definition decimal_digits (n : nat) (s : pystr) : Prop :=
  len s = n /\ forall c, In c s -> isdecimal c = true.

(** Case analysis on the first conditional of the goal. *)
Ltac split_if :=
  match goal with
  | |- context [if ?b then _ else _] => destruct b eqn:?
  end.

(** The value [mask_value] returns for the string form of [v]. *)
Definition masked (key : pystr) (v : pyobj) : pyobj :=
  match mask_value key (VStr (str v)) with
  | Ok r => r
  | Raise _ => v
  end.

(** A field on which standalone detection fires. *)
Definition hit (kv : pystr * pyobj) : bool :=
  truthy (snd kv) && is_standalone_pii (fst kv) (snd kv).

(** What the first loop of [process_record] stores for one field. *)
Definition first_pass (kv : pystr * pyobj) : pystr * pyobj :=
  (fst kv, if hit kv then masked (fst kv) (snd kv) else snd kv).

(** [k in data and data[k]] as a boolean; [present] returns it. *)
Definition present_b (data : dict) (k : pystr) : bool :=
  match dict_find k data with
  | Some v => truthy v
  | None => false
  end.

(** One iteration of the second loop of [process_record], and the loop. *)
Definition mask_field (record : dict) (redacted_data : dict) (field : pystr)
  : dict :=
  match dict_find field record with
  | Some v =>
      if truthy v then dict_setitem field (masked field v) redacted_data
      else redacted_data
  | None => redacted_data
  end.

Definition second_pass (record : dict) (found_fields : list pystr)
    (redacted_data : dict) : dict :=
  fold_left (mask_field record) found_fields redacted_data.

(** The two identity signals a [device_id] or [ip_address] field is linked
    to, and the value [linked_to_identity] returns. *)
Definition name_signal (data : dict) : bool :=
  match dict_find "name" data with
  | Some v => is_full_name (VStr (str v))
  | None => false
  end.

Definition email_signal (data : dict) : bool :=
  match dict_find "email" data with
  | Some v => matches email_pattern (str v)
  | None => false
  end.

Definition linked_b (data : dict) : bool :=
  (present_b data "name" || present_b data "email")
  && (name_signal data || email_signal data).

(** The keys [combinatorial_step] returns, and the list
    [detect_combinatorial_pii] builds from them over the whole record. *)
Definition step_keys (data : dict) (key : pystr) (value : pyobj) : list pystr :=
  if negb (truthy value) then []
  else
    let value_str := strip (str value) in
    if str_eqb key "name" && is_full_name (VStr value_str) then ["name"]
    else if str_eqb key "email" && matches email_pattern value_str
    then ["email"]
    else if str_eqb key "address" && is_physical_address (VStr value_str)
    then ["address"]
    else if key_in key ["device_id"; "ip_address"] && truthy value
    then (if linked_b data then [key] else [])
    else [].

Definition found_of (data : dict) : list pystr :=
  flat_map (fun kv => step_keys data (fst kv) (snd kv)) data.



(** The field names the detector keys off. *)
Definition standalone_fields : list pystr :=
  ["phone"; "contact"; "aadhar"; "passport"; "upi_id"].
Definition contextual_fields : list pystr :=
  ["name"; "email"; "address"; "device_id"; "ip_address"].
Definition recognized_fields : list pystr :=
  ["phone"; "contact"; "aadhar"; "passport"; "upi_id";
   "name"; "email"; "address"; "device_id"; "ip_address"].

(** A character a name token may hold: a letter, a hyphen or an apostrophe. *)
Definition name_char (c : ascii) : bool :=
  isalpha c || Ascii.eqb c "-" || Ascii.eqb c "'".

(** [P] holds of some suffix of [s] (the empty one included). *)
Fixpoint any_suffix (P : pystr -> bool) (s : pystr) : bool :=
  P s || match s with
         | [] => false
         | _ :: t => any_suffix P t
         end.

(** [\d+] matches at the front of [t]. *)
Definition starts_with_digit (t : pystr) : bool :=
  match t with
  | c :: _ => isdecimal c
  | [] => false
  end.

(** The set [[\w.-]] of [upi_pattern]. *)
Definition upi_set : cset := [Word; Chr "."; Chr "-"].

(** [l] keeps some of the elements of [m], in the order of [m]. *)
Inductive subseq {A} : list A -> list A -> Prop :=
| subseq_nil : subseq [] []
| subseq_skip a l m : subseq l m -> subseq l (a :: m)
| subseq_keep a l m : subseq l m -> subseq (a :: l) (a :: m).

(** Every quote of [s] is followed or preceded by its twin: the quotes come
    in pairs, as inside a quoted CSV field. *)
Fixpoint quotes_paired (s : pystr) : bool :=
  match s with
  | [] => true
  | c :: t =>
      if Ascii.eqb c Json.quote
      then match t with
           | d :: t' => Ascii.eqb d Json.quote && quotes_paired t'
           | [] => false
           end
      else quotes_paired t
  end.

(** What a CSV reader makes of the inside of a quoted field: each pair of
    quotes stands for one quote. *)
Fixpoint unquote_csv (s : pystr) : pystr :=
  match s with
  | [] => []
  | c :: t =>
      if Ascii.eqb c Json.quote
      then match t with
           | d :: t' =>
               if Ascii.eqb d Json.quote then c :: unquote_csv t'
               else c :: d :: unquote_csv t'
           | [] => [c]
           end
      else c :: unquote_csv t
  end.

(** A string of the form user@handle, both parts non-empty and made of word
    characters, dots and hyphens. *)
Definition upi_shaped (s : pystr) : Prop :=
  exists u h,
    s = u ++ "@"%char :: h /\ u <> [] /\ h <> []
    /\ forallb (mem upi_set) u = true /\ forallb (mem upi_set) h = true.

(** The masked part before the [@]: its first [n] characters and XXX when it
    has more than [n] characters, XXX alone otherwise. *)
Definition mask_user (n : nat) (u : pystr) : pystr :=
  if n <? len u then firstn n u ++ "XXX" else "XXX".

(** Where an output field comes from: it has the name of the input field at
    its position, and its value is the input value or, for a non-empty
    input value, what [mask_value] returns for that name and the string
    form of that value. *)
Definition derived_from (kv kv' : pystr * pyobj) : Prop :=
  fst kv' = fst kv
  /\ (snd kv' = snd kv
      \/ (truthy (snd kv) = true
          /\ mask_value (fst kv) (VStr (str (snd kv))) = Ok (snd kv'))).

(** A printable ASCII character, SPACE to ~. *)
Definition printable (c : ascii) : bool := in_range 32 126 c.

(* ===================================================================== *)
(** * Characters and strings *)
(* ===================================================================== *)

Lemma decimal_not_space (c : ascii) : isdecimal c = true -> isspace c = false.
Proof. each_char c. Qed.

Lemma decimal_is_digit (c : ascii) : isdecimal c = true -> isdigit c = true.
Proof. each_char c. Qed.

Lemma decimal_is_word (c : ascii) : isdecimal c = true -> isword c = true.
Proof. each_char c. Qed.

Lemma newline_is_space (c : ascii) : is_code 10 c = true -> isspace c = true.
Proof. each_char c. Qed.

Lemma alpha_not_space (c : ascii) : isalpha c = true -> isspace c = false.
Proof. each_char c. Qed.

Lemma str_eqb_eq (a b : pystr) : str_eqb a b = true <-> a = b.
Proof.
  unfold str_eqb. destruct (list_eq_dec ascii_dec a b); split; congruence.
Qed.

Lemma str_eqb_refl (a : pystr) : str_eqb a a = true.
Proof. now apply str_eqb_eq. Qed.

Lemma str_eqb_neq (a b : pystr) : str_eqb a b = false <-> a <> b.
Proof.
  unfold str_eqb. destruct (list_eq_dec ascii_dec a b); split; congruence.
Qed.

Lemma str_eqb_sym (a b : pystr) : str_eqb a b = str_eqb b a.
Proof.
  destruct (str_eqb b a) eqn:E.
  - apply str_eqb_eq in E. subst. apply str_eqb_refl.
  - apply str_eqb_neq in E. apply str_eqb_neq. congruence.
Qed.

(** ** strip *)

Lemma lstrip_head (s : pystr) (c : ascii) (t : pystr) :
  lstrip s = c :: t -> isspace c = false.
Proof.
  induction s as [|a s IH]; simpl; [discriminate|].
  destruct (isspace a) eqn:E; [exact IH|].
  intros H. injection H as -> _. exact E.
Qed.

Lemma lstrip_fix (s : pystr) :
  lstrip s = s <-> match s with [] => True | c :: _ => isspace c = false end.
Proof.
  destruct s as [|c t]; simpl; [tauto|].
  destruct (isspace c) eqn:E; split; auto; try discriminate.
  intros H. apply lstrip_head in H. congruence.
Qed.

Lemma lstrip_idem (s : pystr) : lstrip (lstrip s) = lstrip s.
Proof.
  apply lstrip_fix. destruct (lstrip s) as [|c t] eqn:E; [exact I|].
  eapply lstrip_head; eauto.
Qed.

Lemma lstrip_suffix (s : pystr) : exists p, s = p ++ lstrip s.
Proof.
  induction s as [|a s [p IH]]; simpl.
  - now exists [].
  - destruct (isspace a).
    + exists (a :: p). simpl. now f_equal.
    + now exists [].
Qed.

Lemma rstrip_prefix (s : pystr) : exists q, s = rstrip s ++ q.
Proof.
  unfold rstrip. destruct (lstrip_suffix (rev s)) as [p Hp].
  exists (rev p). rewrite <- rev_app_distr, <- Hp. now rewrite rev_involutive.
Qed.

Lemma strip_trimmed (s : pystr) : trimmed (strip s).
Proof.
  unfold trimmed, strip. split.
  - apply lstrip_fix.
    destruct (rstrip_prefix (lstrip s)) as [q Hq].
    destruct (rstrip (lstrip s)) as [|c t] eqn:E; [exact I|].
    simpl in Hq. eapply lstrip_head. exact Hq.
  - unfold rstrip. rewrite rev_involutive. apply lstrip_idem.
Qed.

Lemma trimmed_strip (s : pystr) : trimmed s -> strip s = s.
Proof.
  intros [H1 H2]. unfold strip, rstrip. rewrite H1, H2. apply rev_involutive.
Qed.

Lemma strip_idem (s : pystr) : strip (strip s) = strip s.
Proof. apply trimmed_strip, strip_trimmed. Qed.

Lemma nospace_trimmed (s : pystr) :
  (forall c, In c s -> isspace c = false) -> trimmed s.
Proof.
  intros H. split; apply lstrip_fix.
  - destruct s as [|c t]; [exact I|]. apply H. now left.
  - destruct (rev s) as [|c t] eqn:E; [exact I|].
    apply H. apply in_rev. rewrite E. now left.
Qed.

Lemma trimmed_last (s t : pystr) (c : ascii) :
  trimmed s -> s = t ++ [c] -> isspace c = false.
Proof.
  intros [_ H] ->. rewrite rev_app_distr in H.
  change (rev [c] ++ rev t) with (c :: rev t) in H.
  apply lstrip_fix in H. exact H.
Qed.

Lemma strip_nil : strip [] = [].
Proof. reflexivity. Qed.

Lemma last_char_split (s : pystr) (n : nat) (c : ascii) :
  nth_error s n = Some c -> S n = len s -> s = firstn n s ++ [c].
Proof.
  revert n. induction s as [|a s IH]; intros [|n]; simpl; try discriminate.
  - intros H L. injection H as ->. destruct s; [reflexivity|discriminate].
  - intros H L. f_equal. apply IH; [exact H|]. unfold len in *. simpl in L. lia.
Qed.

(* ===================================================================== *)
(** * Regular expressions: what a pattern matches *)
(* ===================================================================== *)

Lemma ends_span (r : regex) (s : pystr) :
  forall i j, In j (ends r s i) <-> span r s i j.
Proof.
  induction r as [| | |cs|cs lo hi|r1 IH1 r2 IH2|r1 IH1 r2 IH2]; intros i j;
    cbn [ends span]; cbv zeta.
  - destruct (i =? 0) eqn:E; simpl.
    + apply Nat.eqb_eq in E. intuition.
    + apply Nat.eqb_neq in E. intuition.
  - destruct (at_eol s i); simpl; intuition; discriminate.
  - destruct (boundary s i); simpl; intuition; discriminate.
  - destruct (nth_error s i) as [c|].
    + destruct (mem cs c) eqn:E; simpl.
      * split.
        -- intros [<-|[]]. now exists c.
        -- intros (c' & H & _ & ->). now left.
      * split; [intros []|]. intros (c' & H & M & _). congruence.
    + split; [intros []|]. intros (c' & H & _). discriminate.
  - rewrite in_map_iff. split.
    + intros (k & <- & Hk). apply in_seq in Hk. exists k.
      destruct hi as [h|]; repeat split; lia.
    + intros (k & -> & H1 & H2 & H3). exists k. split; [reflexivity|].
      apply in_seq. destruct hi as [h|]; lia.
  - rewrite in_flat_map. split.
    + intros (m & H1 & H2). exists m. split; [now apply IH1|now apply IH2].
    + intros (m & H1 & H2). exists m. split; [now apply IH1|now apply IH2].
  - rewrite in_app_iff, IH1, IH2. tauto.
Qed.

Lemma not_null_iff {A} (l : list A) : negb (null l) = true <-> exists a, In a l.
Proof.
  destruct l as [|a l]; simpl; split; try discriminate; auto.
  - intros [a []].
  - intros _. exists a. now left.
Qed.

Lemma matches_span (r : regex) (s : pystr) :
  matches r s = true <-> exists j, span r s 0 j.
Proof.
  unfold matches. rewrite not_null_iff.
  split; intros [j H]; exists j; now apply ends_span.
Qed.

Lemma run_firstn (cs : cset) (s : pystr) :
  forall k, k <= run cs s <->
            k <= len s /\ forallb (mem cs) (firstn k s) = true.
Proof.
  unfold len. induction s as [|c s IH]; intros [|k]; simpl.
  - intuition.
  - intuition; lia.
  - intuition; lia.
  - destruct (mem cs c); simpl.
    + rewrite <- Nat.succ_le_mono, IH. intuition; lia.
    + intuition; try lia; discriminate.
Qed.

Lemma mem_digit (c : ascii) : mem [Digit] c = isdecimal c.
Proof. unfold mem. simpl. apply orb_false_r. Qed.

Lemma forallb_mem_digit (s : pystr) :
  forallb (mem [Digit]) s = forallb isdecimal s.
Proof.
  induction s as [|c s IH]; cbn [forallb]; [reflexivity|].
  now rewrite mem_digit, IH.
Qed.

(** On a trimmed string, [$] can only hold at the end. *)
Lemma at_eol_trimmed (s : pystr) (i : nat) :
  trimmed s -> at_eol s i = true -> i = len s.
Proof.
  intros T H. unfold at_eol in H. apply orb_true_iff in H.
  destruct H as [H|H]; [now apply Nat.eqb_eq|].
  apply andb_true_iff in H. destruct H as [L H]. apply Nat.eqb_eq in L.
  destruct (nth_error s i) as [c|] eqn:E; [|discriminate].
  apply newline_is_space in H.
  rewrite (@trimmed_last s _ c T (@last_char_split s i c E L)) in H. discriminate.
Qed.

Lemma at_eol_end (s : pystr) : at_eol s (len s) = true.
Proof. unfold at_eol. now rewrite Nat.eqb_refl. Qed.

(** [^\d{n}$] on a trimmed string: exactly [n] decimal digits. *)
Lemma digits_pattern (n : nat) (s : pystr) :
  trimmed s ->
  matches (seqs [Bol; exactly n [Digit]; Eol]) s = true
  <-> len s = n /\ forallb isdecimal s = true.
Proof.
  intros T. rewrite matches_span. simpl. split.
  - intros (j & m & [_ ->] & m' & (k & -> & H1 & H2 & H3) & E & _).
    assert (k = n) by lia. subst k. simpl in E.
    apply at_eol_trimmed in E; [|exact T].
    apply run_firstn in H2. destruct H2 as [_ H2]. simpl in H2.
    rewrite E, firstn_all in H2. rewrite forallb_mem_digit in H2. auto.
  - intros [L D]. exists n, 0. split; [auto|]. exists n. split.
    + exists n. repeat split; try lia. apply run_firstn. simpl. split; [lia|].
      rewrite <- L. unfold len. rewrite firstn_all. now rewrite forallb_mem_digit.
    + rewrite <- L. split; [apply at_eol_end|reflexivity].
Qed.

(* ===================================================================== *)
(** * Standalone matcher and the digit masks *)
(* ===================================================================== *)

Lemma decimal_digits_forallb (n : nat) (s : pystr) :
  decimal_digits n s <-> len s = n /\ forallb isdecimal s = true.
Proof. unfold decimal_digits. now rewrite forallb_forall. Qed.

Lemma decimal_digits_trimmed (n : nat) (s : pystr) :
  decimal_digits n s -> strip s = s.
Proof.
  intros [_ H]. apply trimmed_strip, nospace_trimmed.
  intros c Hc. now apply decimal_not_space, H.
Qed.

Lemma decimal_digits_isdigit (n : nat) (s : pystr) :
  decimal_digits (S n) s -> str_isdigit s = true.
Proof.
  intros [L H]. unfold str_isdigit. apply andb_true_iff. split.
  - destruct s; [discriminate|reflexivity].
  - apply forallb_forall. intros c Hc. now apply decimal_is_digit, H.
Qed.

Lemma falsy_str_short (v : pyobj) :
  truthy v = false -> len (strip (str v)) <= 5.
Proof.
  destruct v as [|[|]|z|s]; simpl; try discriminate.
  - intros _. vm_compute. lia.
  - intros _. vm_compute. lia.
  - intros H. apply negb_false_iff, Z.eqb_eq in H. subst z. vm_compute. lia.
  - destruct s; [|discriminate]. intros _. vm_compute. lia.
Qed.

Lemma standalone_digits (key : pystr) (v : pyobj) :
  key_in key ["phone"; "contact"] = true ->
  is_standalone_pii key v = true <-> decimal_digits 10 (strip (str v)).
Proof.
  intros K. unfold is_standalone_pii. rewrite K.
  destruct (truthy v) eqn:T; cbn [negb].
  - unfold phone_pattern. rewrite digits_pattern by apply strip_trimmed.
    symmetry. apply decimal_digits_forallb.
  - split; [discriminate|]. intros [L _].
    apply falsy_str_short in T. lia.
Qed.

(** C6. For every value [v], [is_standalone_pii] on the field name
    [phone], and likewise on [contact], is true exactly when the trimmed
    string form of [v] consists of exactly 10 decimal digits; it is false
    for every empty or falsy [v]. *)
Theorem phone_standalone_iff_ten_digits (v : pyobj) :
  (is_standalone_pii "phone" v = true <-> decimal_digits 10 (strip (str v)))
  /\ (is_standalone_pii "contact" v = true
      <-> decimal_digits 10 (strip (str v)))
  /\ (truthy v = false ->
      is_standalone_pii "phone" v = false
      /\ is_standalone_pii "contact" v = false).
Proof.
  split; [|split].
  - apply standalone_digits. vm_compute. reflexivity.
  - apply standalone_digits. vm_compute. reflexivity.
  - intros T. unfold is_standalone_pii. rewrite T. split; reflexivity.
Qed.

Lemma mask_digits_phone (key v : pystr) :
  key_in key ["phone"; "contact"] = true ->
  decimal_digits 10 v ->
  mask_value key (VStr v)
  = Ok (VStr (slice_to 2 v ++ "XXXXXX" ++ slice_last 2 v)).
Proof.
  intros K D. unfold mask_value. cbn [str truthy].
  rewrite (decimal_digits_trimmed _ _ D), K, (decimal_digits_isdigit _ _ D).
  destruct D as [L _]. rewrite L.
  destruct v; [discriminate|]. reflexivity.
Qed.

Lemma mask_digits_aadhar (v : pystr) :
  decimal_digits 12 v ->
  mask_value "aadhar" (VStr v)
  = Ok (VStr (slice_to 4 v ++ "XXXX" ++ slice_last 4 v)).
Proof.
  intros D. unfold mask_value. cbn [str truthy].
  rewrite (decimal_digits_trimmed _ _ D), (decimal_digits_isdigit _ _ D).
  destruct D as [L _]. rewrite L.
  destruct v; [discriminate|]. reflexivity.
Qed.

Lemma mask_phone_shape (key v : pystr) :
  key = "phone" \/ key = "contact" ->
  decimal_digits 10 v ->
  mask_value key (VStr v) = Ok (VStr (firstn 2 v ++ "XXXXXX" ++ skipn 8 v)).
Proof.
  intros K D. rewrite mask_digits_phone; [| |exact D].
  - unfold slice_to, slice_last. destruct D as [-> _]. reflexivity.
  - destruct K as [-> | ->]; vm_compute; reflexivity.
Qed.

Lemma mask_aadhar_shape (v : pystr) :
  decimal_digits 12 v ->
  mask_value "aadhar" (VStr v) = Ok (VStr (firstn 4 v ++ "XXXX" ++ skipn 8 v)).
Proof.
  intros D. rewrite mask_digits_aadhar by exact D.
  unfold slice_to, slice_last. destruct D as [-> _]. reflexivity.
Qed.

(** C1. Processing the record with [phone] = 9876543210 returns the record
    with [phone] = 98XXXXXX10 and the PII flag true; processing the record
    with [aadhar] = 123456789012 returns 1234XXXX9012 with the flag true.
    In general [mask_value] on [phone] or [contact] turns a value of
    exactly 10 digits into its first 2 characters, six X and its last 2
    characters, and on [aadhar] turns a value of exactly 12 digits into its
    first 4 characters, four X and its last 4 characters. *)
Theorem phone_and_aadhar_masks :
  process_record [("phone", VStr "9876543210")]
  = Ok ([("phone", VStr "98XXXXXX10")], true)
  /\ process_record [("aadhar", VStr "123456789012")]
     = Ok ([("aadhar", VStr "1234XXXX9012")], true)
  /\ (forall key v,
         key = "phone" \/ key = "contact" ->
         decimal_digits 10 v ->
         mask_value key (VStr v)
         = Ok (VStr (firstn 2 v ++ "XXXXXX" ++ skipn 8 v)))
  /\ (forall v,
         decimal_digits 12 v ->
         mask_value "aadhar" (VStr v)
         = Ok (VStr (firstn 4 v ++ "XXXX" ++ skipn 8 v))).
Proof.
  split; [vm_compute; reflexivity|].
  split; [vm_compute; reflexivity|].
  split; [exact mask_phone_shape|exact mask_aadhar_shape].
Qed.

Lemma phone_and_aadhar_masks_witness :
  mask_value "contact" (VStr "9876543210") = Ok (VStr "98XXXXXX10")
  /\ mask_value "aadhar" (VStr "123456789012") = Ok (VStr "1234XXXX9012").
Proof.
  split.
  - apply (proj1 (proj2 (proj2 phone_and_aadhar_masks)) "contact" "9876543210").
    + right. reflexivity.
    + split; [reflexivity|].
      intros c Hc. simpl in Hc.
      repeat (destruct Hc as [<-|Hc]; [reflexivity|]). destruct Hc.
  - apply (proj2 (proj2 (proj2 phone_and_aadhar_masks)) "123456789012").
    split; [reflexivity|].
    intros c Hc. simpl in Hc.
    repeat (destruct Hc as [<-|Hc]; [reflexivity|]). destruct Hc.
Defined.

(* ===================================================================== *)
(** * The masking transform never raises *)
(* ===================================================================== *)

Lemma len_two {A} (l : list A) : len l = 2 -> exists a b, l = [a; b].
Proof.
  destruct l as [|a [|b [|c l]]]; try discriminate. intros _. now exists a, b.
Qed.

Lemma getitem_last {A} (a : A) (l : list A) :
  getitem (a :: l) (-1) = Ok (last (a :: l) a).
Proof.
  unfold getitem. cbn [Z.ltb Z.compare].
  assert (J : (-1 + Z.of_nat (len (a :: l)))%Z = Z.of_nat (len l)).
  { unfold len. cbn [List.length]. lia. }
  rewrite J.
  destruct (Z.of_nat (len l) <? 0)%Z eqn:E; [apply Z.ltb_lt in E; lia|].
  rewrite Nat2Z.id. clear J E. revert a.
  induction l as [|b l IH]; intros a; [reflexivity|].
  change (nth_error (a :: b :: l) (len (b :: l))) with (nth_error (b :: l) (len l)).
  specialize (IH b).
  destruct (nth_error (b :: l) (len l)) as [x|]; [|discriminate].
  injection IH as ->. f_equal.
  clear. revert b. induction l as [|c l IH]; intros b; [reflexivity|].
  change (last (b :: c :: l) b) with (last (c :: l) b).
  change (last (a :: b :: c :: l) a) with (last (c :: l) a).
  clear IH. revert c. induction l as [|d l IH]; intros c; [reflexivity|].
  change (last (c :: d :: l) b) with (last (d :: l) b).
  change (last (c :: d :: l) a) with (last (d :: l) a). apply IH.
Qed.

Lemma getitem_first {A} (a : A) (l : list A) : getitem (a :: l) 0 = Ok a.
Proof. reflexivity. Qed.

Lemma mask_value_truthy_ok (key : pystr) (v : pyobj) :
  truthy v = true -> exists s', mask_value key v = Ok (VStr s').
Proof.
  intros T. unfold mask_value. rewrite T. cbn [negb].
  set (value_str := strip (str v)).
  split_if; [eauto|].
  split_if; [eauto|].
  split_if.
  { repeat match goal with
           | H : _ && _ = true |- _ => apply andb_true_iff in H; destruct H
           end.
    match goal with H : (_ =? 2) = true |- _ => apply Nat.eqb_eq in H;
      destruct (len_two _ H) as (a & b & ->) end.
    cbn [getitem_first]. eexists. reflexivity. }
  split_if.
  { repeat match goal with
           | H : _ && _ = true |- _ => apply andb_true_iff in H; destruct H
           end.
    match goal with H : (2 <=? _) = true |- _ => apply Nat.leb_le in H end.
    destruct (split value_str) as [|first rest]; [simpl in *; lia|].
    rewrite getitem_first, getitem_last. cbn [bind].
    generalize (last (first :: rest) first). intros l.
    destruct first, l; eexists; reflexivity. }
  split_if; [eauto|].
  split_if.
  { repeat match goal with
           | H : _ && _ = true |- _ => apply andb_true_iff in H; destruct H
           end.
    match goal with H : (_ =? 2) = true |- _ => apply Nat.eqb_eq in H;
      destruct (len_two _ H) as (a & b & ->) end.
    eexists. reflexivity. }
  split_if; [|eauto].
  repeat match goal with
         | H : _ && _ = true |- _ => apply andb_true_iff in H; destruct H
         end.
  match goal with H : (_ =? 8) = true |- _ => apply Nat.eqb_eq in H end.
  destruct value_str as [|c0 t]; [discriminate|].
  change (str_getitem (c0 :: t) 0) with (Ok [c0]). cbn [bind].
  split_if; eauto.
Qed.

Lemma mask_value_falsy (key : pystr) (v : pyobj) :
  truthy v = false -> mask_value key v = Ok v.
Proof. intros T. unfold mask_value. now rewrite T. Qed.

Lemma mask_value_str_ok (key s : pystr) :
  exists s', mask_value key (VStr s) = Ok (VStr s').
Proof.
  destruct (truthy (VStr s)) eqn:T.
  - now apply mask_value_truthy_ok.
  - exists s. now apply mask_value_falsy.
Qed.

Lemma mask_value_ok (key : pystr) (v : pyobj) :
  exists r, mask_value key v = Ok r.
Proof.
  destruct (truthy v) eqn:T.
  - destruct (mask_value_truthy_ok key v T) as [s' ->]. eauto.
  - rewrite mask_value_falsy by exact T. eauto.
Qed.

(* ===================================================================== *)
(** * Dictionaries *)
(* ===================================================================== *)

Lemma dict_contains_find (k : pystr) (d : dict) :
  dict_contains k d = match dict_find k d with Some _ => true | None => false end.
Proof.
  unfold dict_contains, dict_find.
  induction d as [|[k' v'] d IH]; simpl; [reflexivity|].
  destruct (str_eqb k' k); simpl; [reflexivity|exact IH].
Qed.

Lemma dict_find_in (k : pystr) (v : pyobj) (d : dict) :
  dict_find k d = Some v -> In (k, v) d.
Proof.
  unfold dict_find. induction d as [|[k' v'] d IH]; simpl; [discriminate|].
  destruct (str_eqb k' k) eqn:E; simpl.
  - apply str_eqb_eq in E. intros H. injection H as ->. subst. now left.
  - intros H. right. now apply IH.
Qed.

Lemma in_dict_find (k : pystr) (v : pyobj) (d : dict) :
  wf_dict d -> In (k, v) d -> dict_find k d = Some v.
Proof.
  unfold wf_dict, keys, dict_find.
  induction d as [|[k' v'] d IH]; simpl; [tauto|].
  intros W [H|H].
  - injection H as -> ->. now rewrite str_eqb_refl.
  - inversion W as [|? ? N W']; subst.
    destruct (str_eqb k' k) eqn:E.
    + apply str_eqb_eq in E. subst. exfalso. apply N.
      apply in_map_iff. now exists (k, v).
    + now apply IH.
Qed.

Lemma dict_find_none (k : pystr) (d : dict) :
  dict_find k d = None <-> ~ In k (keys d).
Proof.
  unfold dict_find, keys. induction d as [|[k' v'] d IH]; simpl; [tauto|].
  destruct (str_eqb k' k) eqn:E; simpl.
  - apply str_eqb_eq in E. split; [discriminate|]. tauto.
  - apply str_eqb_neq in E. rewrite IH. tauto.
Qed.

Lemma dict_setitem_new (k : pystr) (v : pyobj) (d : dict) :
  ~ In k (keys d) -> dict_setitem k v d = d ++ [(k, v)].
Proof.
  unfold keys. induction d as [|[k' v'] d IH]; simpl; [reflexivity|].
  intros N. destruct (str_eqb k' k) eqn:E.
  - apply str_eqb_eq in E. tauto.
  - f_equal. apply IH. tauto.
Qed.

Lemma dict_setitem_keys (k : pystr) (v : pyobj) (d : dict) :
  In k (keys d) -> keys (dict_setitem k v d) = keys d.
Proof.
  unfold keys. induction d as [|[k' v'] d IH]; simpl; [tauto|].
  intros H. destruct (str_eqb k' k) eqn:E; simpl.
  - apply str_eqb_eq in E. now subst.
  - f_equal. apply IH. destruct H as [H|H]; [|exact H].
    apply str_eqb_neq in E. congruence.
Qed.

Lemma dict_find_setitem (k k' : pystr) (v : pyobj) (d : dict) :
  dict_find k' (dict_setitem k v d)
  = if str_eqb k k' then Some v else dict_find k' d.
Proof.
  unfold dict_find. induction d as [|[k0 v0] d IH]; simpl.
  - destruct (str_eqb k k'); reflexivity.
  - destruct (str_eqb k0 k) eqn:E; simpl.
    + apply str_eqb_eq in E. subst k0.
      destruct (str_eqb k k'); reflexivity.
    + destruct (str_eqb k0 k') eqn:E'; simpl.
      * apply str_eqb_eq in E'. subst k0. now rewrite str_eqb_sym, E.
      * exact IH.
Qed.

Lemma dict_find_keys (k : pystr) (v : pyobj) (d : dict) :
  dict_find k d = Some v -> In k (keys d).
Proof.
  intros H. apply dict_find_in in H. unfold keys.
  apply in_map_iff. now exists (k, v).
Qed.

(* ===================================================================== *)
(** * The two loops of the record processor, as functions *)
(* ===================================================================== *)

Lemma mask_value_masked (key : pystr) (v : pyobj) :
  mask_value key (VStr (str v)) = Ok (masked key v).
Proof.
  unfold masked. destruct (mask_value_str_ok key (str v)) as [s' ->].
  reflexivity.
Qed.

Lemma keys_first_pass (d : dict) : keys (map first_pass d) = keys d.
Proof. unfold keys. rewrite map_map. reflexivity. Qed.

Lemma standalone_loop_spec (items : dict) :
  forall acc is_pii,
    NoDup (keys acc ++ keys items) ->
    standalone_loop items acc is_pii
    = Ok (acc ++ map first_pass items, is_pii || existsb hit items).
Proof.
  induction items as [|[key value] items IH]; intros acc is_pii W.
  - simpl. now rewrite app_nil_r, orb_false_r.
  - assert (N : ~ In key (keys acc)).
    { simpl in W. apply NoDup_remove_2 in W. intros H. apply W.
      apply in_or_app. now left. }
    assert (W' : forall x, NoDup (keys (acc ++ [(key, x)]) ++ keys items)).
    { intros x. unfold keys in *. rewrite map_app, <- app_assoc. exact W. }
    cbn [standalone_loop]. unfold first_pass at 1. unfold hit at 1 2.
    cbn [fst snd map existsb].
    destruct (truthy value && is_standalone_pii key value).
    + rewrite mask_value_masked. cbn [bind].
      rewrite dict_setitem_new by exact N. rewrite IH by apply W'.
      rewrite <- app_assoc. now rewrite orb_true_r.
    + rewrite dict_setitem_new by exact N. rewrite IH by apply W'.
      now rewrite <- app_assoc.
Qed.

Lemma present_ok (data : dict) (k : pystr) :
  present data k = Ok (present_b data k).
Proof.
  unfold present, present_b, dict_getitem. rewrite dict_contains_find.
  destruct (dict_find k data); reflexivity.
Qed.

Lemma second_pass_cons (record : dict) (field : pystr) (rest : list pystr)
    (redacted_data : dict) :
  second_pass record (field :: rest) redacted_data
  = second_pass record rest (mask_field record redacted_data field).
Proof. reflexivity. Qed.

Lemma mask_found_spec (record : dict) (found_fields : list pystr) :
  forall redacted_data,
    mask_found record found_fields redacted_data
    = Ok (second_pass record found_fields redacted_data).
Proof.
  induction found_fields as [|field rest IH]; intros rd; [reflexivity|].
  cbn [mask_found]. rewrite present_ok. cbn [bind].
  rewrite second_pass_cons. unfold mask_field.
  unfold present_b, dict_getitem.
  destruct (dict_find field record) as [v|]; [|apply IH].
  destruct (truthy v); [|apply IH].
  cbn [bind]. rewrite mask_value_masked. cbn [bind]. apply IH.
Qed.

Lemma second_pass_keys (record : dict) (found_fields : list pystr) :
  forall redacted_data,
    keys redacted_data = keys record ->
    keys (second_pass record found_fields redacted_data) = keys record.
Proof.
  induction found_fields as [|field rest IH]; intros rd K; [exact K|].
  rewrite second_pass_cons. apply IH.
  unfold mask_field. destruct (dict_find field record) as [v|] eqn:E; [|exact K].
  destruct (truthy v); [|exact K].
  rewrite dict_setitem_keys; [exact K|].
  rewrite K. eapply dict_find_keys; eauto.
Qed.

Lemma second_pass_other (record : dict) (found_fields : list pystr) (k : pystr) :
  ~ In k found_fields ->
  forall redacted_data,
    dict_find k (second_pass record found_fields redacted_data)
    = dict_find k redacted_data.
Proof.
  induction found_fields as [|field rest IH]; intros N rd; [reflexivity|].
  rewrite second_pass_cons.
  rewrite (IH (fun H => N (or_intror H))).
  unfold mask_field. destruct (dict_find field record) as [v|]; [|reflexivity].
  destruct (truthy v); [|reflexivity].
  rewrite dict_find_setitem.
  destruct (str_eqb field k) eqn:E; [|reflexivity].
  apply str_eqb_eq in E. subst. exfalso. apply N. now left.
Qed.

Lemma second_pass_found (record : dict) (found_fields : list pystr)
    (k : pystr) (v : pyobj) :
  In k found_fields -> dict_find k record = Some v -> truthy v = true ->
  forall redacted_data,
    dict_find k (second_pass record found_fields redacted_data)
    = Some (masked k v).
Proof.
  intros I F T. induction found_fields as [|field rest IH]; intros rd; [destruct I|].
  rewrite second_pass_cons.
  destruct (in_dec (list_eq_dec ascii_dec) k rest) as [R|R].
  - apply IH. exact R.
  - rewrite second_pass_other by exact R.
    destruct I as [->|I]; [|contradiction].
    unfold mask_field. rewrite F, T, dict_find_setitem. now rewrite str_eqb_refl.
Qed.

(* ===================================================================== *)
(** * The combinatorial detector, as a function *)
(* ===================================================================== *)

Lemma linked_ok (data : dict) : linked_to_identity data = Ok (linked_b data).
Proof.
  unfold linked_to_identity, linked_b, or_else.
  rewrite !present_ok. cbn [bind].
  assert (E : or_else
      (and_then (dict_contains "name" data)
         (v <- dict_getitem data "name" ;; Ok (is_full_name (VStr (str v)))))
      (and_then (dict_contains "email" data)
         (v <- dict_getitem data "email" ;; Ok (matches email_pattern (str v))))
      = Ok (name_signal data || email_signal data)).
  { unfold or_else, and_then, name_signal, email_signal, dict_getitem.
    rewrite !dict_contains_find.
    destruct (dict_find "name" data) as [v|]; cbn [bind].
    - destruct (is_full_name (VStr (str v))); [reflexivity|].
      destruct (dict_find "email" data); reflexivity.
    - destruct (dict_find "email" data); reflexivity. }
  unfold or_else in E.
  destruct (present_b data "name"); cbn [orb andb].
  - exact E.
  - destruct (present_b data "email"); cbn [orb andb]; [exact E|reflexivity].
Qed.

Lemma combinatorial_step_ok (data : dict) (key : pystr) (value : pyobj) :
  combinatorial_step data key value = Ok (step_keys data key value).
Proof.
  unfold combinatorial_step, step_keys.
  repeat (split_if; [reflexivity|]).
  split_if; [|reflexivity].
  rewrite linked_ok. reflexivity.
Qed.

Lemma combinatorial_loop_spec (data : dict) (items : dict) :
  forall found_pii,
    combinatorial_loop data items found_pii
    = Ok (found_pii
          ++ flat_map (fun kv => step_keys data (fst kv) (snd kv)) items).
Proof.
  induction items as [|[key value] items IH]; intros acc.
  - simpl. now rewrite app_nil_r.
  - cbn [combinatorial_loop flat_map fst snd].
    rewrite combinatorial_step_ok. cbn [bind]. rewrite IH.
    now rewrite app_assoc.
Qed.

Lemma detect_spec (data : dict) :
  detect_combinatorial_pii data
  = Ok (2 <=? len (found_of data), found_of data).
Proof.
  unfold detect_combinatorial_pii. rewrite combinatorial_loop_spec.
  reflexivity.
Qed.

(** What one step can append: the key itself, non-empty, and one of the five
    contextual field names. *)
Lemma step_keys_in (data : dict) (key : pystr) (value : pyobj) (k : pystr) :
  In k (step_keys data key value) ->
  k = key /\ truthy value = true
  /\ key_in key ["name"; "email"; "address"; "device_id"; "ip_address"] = true.
Proof.
  unfold step_keys. destruct (truthy value); cbn [negb]; [|intros []].
  destruct (str_eqb key "name") eqn:E1; cbn [andb].
  { apply str_eqb_eq in E1. subst key.
    destruct (is_full_name _); [intros [<-|[]]; auto|].
    cbn. intros []. }
  destruct (str_eqb key "email") eqn:E2; cbn [andb].
  { apply str_eqb_eq in E2. subst key.
    destruct (matches _ _); [intros [<-|[]]; auto|].
    cbn. intros []. }
  destruct (str_eqb key "address") eqn:E3; cbn [andb].
  { apply str_eqb_eq in E3. subst key.
    destruct (is_physical_address _); [intros [<-|[]]; auto|].
    cbn. intros []. }
  destruct (key_in key ["device_id"; "ip_address"]) eqn:E4; cbn [andb];
    [|intros []].
  destruct (linked_b data); [|intros []].
  intros [<-|[]]. repeat split.
  unfold key_in in *. cbn [existsb] in *.
  rewrite E1, E2, E3. exact E4.
Qed.

Lemma found_of_in (data : dict) (k : pystr) :
  In k (found_of data) <->
  exists v, In (k, v) data /\ In k (step_keys data k v).
Proof.
  unfold found_of. rewrite in_flat_map. split.
  - intros ([key value] & I & S). cbn [fst snd] in S.
    destruct (step_keys_in _ _ _ _ S) as (-> & _). now exists value.
  - intros (v & I & S). now exists (k, v).
Qed.

Lemma step_keys_device (data : dict) (key : pystr) (value : pyobj) :
  key_in key ["device_id"; "ip_address"] = true ->
  step_keys data key value
  = if truthy value && linked_b data then [key] else [].
Proof.
  intros K. unfold step_keys.
  destruct (truthy value); cbn [negb andb]; [|reflexivity].
  assert (N : str_eqb key "name" = false /\ str_eqb key "email" = false
              /\ str_eqb key "address" = false).
  { unfold key_in in K. cbn [existsb] in K.
    apply orb_true_iff in K. destruct K as [K|K].
    - apply str_eqb_eq in K. subst. repeat split; reflexivity.
    - apply orb_true_iff in K. destruct K as [K|K]; [|discriminate].
      apply str_eqb_eq in K. subst. repeat split; reflexivity. }
  destruct N as (-> & -> & ->). cbn [andb]. rewrite K. reflexivity.
Qed.

(* ===================================================================== *)
(** * The record processor *)
(* ===================================================================== *)

Lemma process_record_spec (record : dict) :
  wf_dict record ->
  process_record record
  = Ok (if existsb hit record then (map first_pass record, true)
        else if 2 <=? len (found_of record)
             then (second_pass record (found_of record)
                     (map first_pass record), true)
             else (map first_pass record, false)).
Proof.
  intros W. unfold process_record.
  rewrite standalone_loop_spec by exact W.
  cbn [bind app orb]. destruct (existsb hit record); cbn [negb]; [reflexivity|].
  rewrite detect_spec. cbn [bind].
  destruct (2 <=? len (found_of record)); [|reflexivity].
  rewrite mask_found_spec. reflexivity.
Qed.

Lemma hit_standalone (k : pystr) (v : pyobj) :
  hit (k, v) = is_standalone_pii k v.
Proof.
  unfold hit, is_standalone_pii. cbn [fst snd].
  destruct (truthy v); reflexivity.
Qed.

Lemma standalone_only_on_its_fields (k : pystr) (v : pyobj) :
  is_standalone_pii k v = true -> key_in k standalone_fields = true.
Proof.
  unfold is_standalone_pii, standalone_fields, key_in. cbn [existsb].
  destruct (negb (truthy v)); [discriminate|].
  destruct (str_eqb k "phone"); [reflexivity|].
  destruct (str_eqb k "contact"); [reflexivity|].
  destruct (str_eqb k "aadhar"); [reflexivity|].
  destruct (str_eqb k "passport"); [reflexivity|].
  destruct (str_eqb k "upi_id"); [reflexivity|]. cbn. discriminate.
Qed.

Lemma first_pass_miss (k : pystr) (v : pyobj) :
  is_standalone_pii k v = false -> first_pass (k, v) = (k, v).
Proof.
  intros H. unfold first_pass. rewrite hit_standalone, H. reflexivity.
Qed.

Lemma first_pass_all_miss (record : dict) :
  existsb hit record = false -> map first_pass record = record.
Proof.
  induction record as [|[k v] record IH]; [reflexivity|].
  cbn [existsb map]. intros H. apply orb_false_iff in H. destruct H as [H1 H2].
  rewrite IH by exact H2. f_equal. unfold first_pass. now rewrite H1.
Qed.

Lemma existsb_hit (record : dict) :
  existsb hit record = true <->
  exists k v, In (k, v) record /\ is_standalone_pii k v = true.
Proof.
  rewrite existsb_exists. split.
  - intros ([k v] & I & H). rewrite hit_standalone in H. eauto.
  - intros (k & v & I & H). exists (k, v). now rewrite hit_standalone.
Qed.

Lemma found_contextual (data : dict) (k : pystr) :
  In k (found_of data) -> key_in k contextual_fields = true.
Proof.
  intros H. apply found_of_in in H. destruct H as (v & _ & S).
  now apply step_keys_in in S.
Qed.

Lemma key_in_recognized (k : pystr) :
  key_in k recognized_fields
  = key_in k standalone_fields || key_in k contextual_fields.
Proof.
  unfold key_in, recognized_fields, standalone_fields, contextual_fields.
  cbn [existsb]. rewrite !orb_false_r, <- !orb_assoc. reflexivity.
Qed.

Lemma wf_first_pass (record : dict) :
  wf_dict record -> wf_dict (map first_pass record).
Proof. unfold wf_dict. now rewrite keys_first_pass. Qed.

(** C5. For every record, the output of [process_record] has exactly the
    field names of the input, in the same order: no field is added or
    dropped. Every field whose name is outside the recognized PII-field set
    keeps its value verbatim. The record with the single field [city] =
    Pune comes back unchanged with the PII flag false. *)
Theorem process_record_keeps_fields (record : dict) :
  wf_dict record ->
  (exists out is_pii,
      process_record record = Ok (out, is_pii)
      /\ keys out = keys record
      /\ forall k v,
           In (k, v) record -> key_in k recognized_fields = false ->
           In (k, v) out)
  /\ process_record [("city", VStr "Pune")]
     = Ok ([("city", VStr "Pune")], false).
Proof.
  intros W. split; [|vm_compute; reflexivity].
  assert (F : forall k v, In (k, v) record ->
                key_in k recognized_fields = false ->
                In (k, v) (map first_pass record)).
  { intros k v I R. apply in_map_iff. exists (k, v). split; [|exact I].
    apply first_pass_miss.
    destruct (is_standalone_pii k v) eqn:E; [|reflexivity].
    apply standalone_only_on_its_fields in E.
    rewrite key_in_recognized, E in R. discriminate. }
  rewrite process_record_spec by exact W.
  destruct (existsb hit record).
  { eexists _, _. split; [reflexivity|]. split; [apply keys_first_pass|exact F]. }
  destruct (2 <=? len (found_of record)).
  2:{ eexists _, _. split; [reflexivity|]. split; [apply keys_first_pass|exact F]. }
  eexists _, _. split; [reflexivity|]. split.
  - apply second_pass_keys, keys_first_pass.
  - intros k v I R. apply dict_find_in. rewrite second_pass_other.
    + apply in_dict_find; [now apply wf_first_pass|now apply F].
    + intros H. apply found_contextual in H.
      rewrite key_in_recognized, H, orb_true_r in R. discriminate.
Qed.

Lemma wf_city : wf_dict [("city", VStr "Pune"); ("phone", VStr "9876543210")].
Proof.
  unfold wf_dict. cbn [keys map fst].
  repeat constructor; cbn [In]; intuition discriminate.
Defined.

Lemma process_record_keeps_fields_witness :
  (exists out is_pii,
      process_record [("city", VStr "Pune"); ("phone", VStr "9876543210")]
      = Ok (out, is_pii)
      /\ keys out = ["city"; "phone"]
      /\ forall k v,
           In (k, v) [("city", VStr "Pune"); ("phone", VStr "9876543210")] ->
           key_in k recognized_fields = false -> In (k, v) out)
  /\ process_record [("city", VStr "Pune")]
     = Ok ([("city", VStr "Pune")], false).
Proof.
  exact (process_record_keeps_fields
           [("city", VStr "Pune"); ("phone", VStr "9876543210")] wf_city).
Defined.

(** C2. [process_record] runs the combinatorial detector only when no field
    of the record triggered standalone detection. If at least one field is
    standalone PII, the result is that of the standalone pass alone, so a
    field that is not itself standalone PII (in particular one that would
    only qualify combinatorially) keeps its value. When the combinatorial
    pass does run, every field outside its own qualifying set keeps its
    value. *)
Theorem standalone_takes_precedence (record : dict) :
  wf_dict record ->
  ((exists k v, In (k, v) record /\ is_standalone_pii k v = true) ->
   process_record record = standalone_loop record [] false
   /\ exists out,
        process_record record = Ok (out, true)
        /\ forall k v,
             In (k, v) record -> is_standalone_pii k v = false ->
             In (k, v) out)
  /\ ((forall k v, In (k, v) record -> is_standalone_pii k v = false) ->
      exists out has_combinatorial found_fields,
        detect_combinatorial_pii record = Ok (has_combinatorial, found_fields)
        /\ process_record record = Ok (out, has_combinatorial)
        /\ forall k v,
             In (k, v) record -> ~ In k found_fields -> In (k, v) out).
Proof.
  intros W. rewrite process_record_spec by exact W. split.
  - intros H. apply existsb_hit in H.
    rewrite standalone_loop_spec by exact W. rewrite H. cbn [app orb].
    split; [reflexivity|]. eexists. split; [reflexivity|].
    intros k v I M. apply in_map_iff. exists (k, v).
    split; [now apply first_pass_miss|exact I].
  - intros H.
    assert (E : existsb hit record = false).
    { destruct (existsb hit record) eqn:E; [|reflexivity].
      apply existsb_hit in E. destruct E as (k & v & I & S).
      rewrite (H k v I) in S. discriminate. }
    rewrite E, detect_spec, (first_pass_all_miss _ E).
    destruct (2 <=? len (found_of record)).
    + eexists _, _, _. split; [reflexivity|]. split; [reflexivity|].
      intros k v I N. apply dict_find_in.
      rewrite second_pass_other by exact N. now apply in_dict_find.
    + eexists _, _, _. split; [reflexivity|]. split; [reflexivity|].
      intros k v I _. exact I.
Qed.

Lemma wf_phone_name :
  wf_dict [("phone", VStr "9876543210"); ("name", VStr "Asha Rao");
           ("email", VStr "asha@example.com")].
Proof.
  unfold wf_dict. cbn [keys map fst].
  repeat constructor; cbn [In]; intuition discriminate.
Defined.

Lemma standalone_takes_precedence_witness :
  process_record [("phone", VStr "9876543210"); ("name", VStr "Asha Rao");
                  ("email", VStr "asha@example.com")]
  = standalone_loop [("phone", VStr "9876543210"); ("name", VStr "Asha Rao");
                     ("email", VStr "asha@example.com")] [] false
  /\ exists out,
       process_record [("phone", VStr "9876543210"); ("name", VStr "Asha Rao");
                       ("email", VStr "asha@example.com")]
       = Ok (out, true)
       /\ forall k v,
            In (k, v) [("phone", VStr "9876543210"); ("name", VStr "Asha Rao");
                       ("email", VStr "asha@example.com")] ->
            is_standalone_pii k v = false -> In (k, v) out.
Proof.
  apply (proj1 (standalone_takes_precedence _ wf_phone_name)).
  exists "phone", (VStr "9876543210"). split; [now left|].
  vm_compute. reflexivity.
Defined.

Example standalone_hides_combinatorial :
  process_record [("phone", VStr "9876543210"); ("name", VStr "Asha Rao");
                  ("email", VStr "asha@example.com")]
  = Ok ([("phone", VStr "98XXXXXX10"); ("name", VStr "Asha Rao");
         ("email", VStr "asha@example.com")], true)
  /\ process_record [("name", VStr "Asha Rao");
                     ("email", VStr "asha@example.com")]
     = Ok ([("name", VStr "AXXX RXXXX");
            ("email", VStr "asXXX@example.com")], true).
Proof. split; vm_compute; reflexivity. Qed.

(* ===================================================================== *)
(** * The combinatorial detector *)
(* ===================================================================== *)

Lemma dict_getitem_find (d : dict) (k : pystr) (v : pyobj) :
  dict_getitem d k = Ok v <-> dict_find k d = Some v.
Proof.
  unfold dict_getitem. destruct (dict_find k d); split; congruence.
Qed.

Lemma key_device_or_ip (k : pystr) :
  k = "device_id" \/ k = "ip_address" <->
  key_in k ["device_id"; "ip_address"] = true.
Proof.
  unfold key_in. cbn [existsb]. rewrite orb_false_r, orb_true_iff.
  now rewrite !str_eqb_eq.
Qed.

(** What the code guarantees about [device_id] and [ip_address]: such a
    field is reported only when its value is non-empty and the record holds
    a [name] field passing [is_full_name] or an [email] field matching the
    detector's own [email_pattern]; the flag is true exactly when at least
    2 names are reported. *)
Lemma device_needs_name_or_email_test :
  (forall data : dict,
      exists has_combinatorial found_pii,
        detect_combinatorial_pii data = Ok (has_combinatorial, found_pii)
        /\ (has_combinatorial = true <-> 2 <= len found_pii)
        /\ forall k,
             In k found_pii -> k = "device_id" \/ k = "ip_address" ->
             (exists v, In (k, v) data /\ truthy v = true)
             /\ ((exists v, dict_getitem data "name" = Ok v
                            /\ is_full_name (VStr (str v)) = true)
                 \/ (exists v, dict_getitem data "email" = Ok v
                               /\ matches email_pattern (str v) = true)))
  /\ detect_combinatorial_pii
       [("name", VStr "Asha Rao"); ("device_id", VStr "abc123")]
     = Ok (true, ["name"; "device_id"])
  /\ detect_combinatorial_pii [("device_id", VStr "abc123")] = Ok (false, []).
Proof.
  split; [|split; vm_compute; reflexivity].
  intros data. exists (2 <=? len (found_of data)), (found_of data).
  split; [apply detect_spec|]. split; [apply Nat.leb_le|].
  intros k I K. apply key_device_or_ip in K.
  apply found_of_in in I. destruct I as (v & I & S).
  rewrite step_keys_device in S by exact K.
  destruct (truthy v) eqn:T; [|destruct S].
  destruct (linked_b data) eqn:L; [|destruct S].
  split; [now exists v|].
  unfold linked_b in L. apply andb_true_iff in L. destruct L as [_ L].
  apply orb_true_iff in L. destruct L as [L|L].
  - left. unfold name_signal in L.
    destruct (dict_find "name" data) as [w|] eqn:F; [|discriminate].
    exists w. split; [now apply dict_getitem_find|exact L].
  - right. unfold email_signal in L.
    destruct (dict_find "email" data) as [w|] eqn:F; [|discriminate].
    exists w. split; [now apply dict_getitem_find|exact L].
Qed.

(** C3. [detect_combinatorial_pii] is meant to count a non-empty [device_id]
    or [ip_address] field only if the same record also holds a [name] field
    that is full-name-shaped or an [email] field that is valid-email-shaped.
    On the record [email] = a@b.c| , [device_id] = abc123 it reports both
    fields and returns true, although the record has no [name] field and its
    email is not valid-email-shaped (the top-level domain holds a vertical
    bar, which is not alphabetic): the detector tests the email against its
    own pattern, whose last set is written [A-Z|a-z]. With the email a@b.c0
    in its place, which neither shape accepts, nothing is reported. The two
    records of the claim evaluate as stated. *)
Theorem device_counted_with_invalid_email :
  detect_combinatorial_pii
    [("email", VStr "a@b.c|"); ("device_id", VStr "abc123")]
  = Ok (true, ["email"; "device_id"])
  /\ dict_contains "name"
       [("email", VStr "a@b.c|"); ("device_id", VStr "abc123")] = false
  /\ Spec.valid_email "a@b.c|" = false
  /\ isalpha "|" = false
  /\ matches email_pattern "a@b.c|" = true
  /\ detect_combinatorial_pii
       [("email", VStr "a@b.c0"); ("device_id", VStr "abc123")]
     = Ok (false, [])
  /\ detect_combinatorial_pii
       [("name", VStr "Asha Rao"); ("device_id", VStr "abc123")]
     = Ok (true, ["name"; "device_id"])
  /\ detect_combinatorial_pii [("device_id", VStr "abc123")] = Ok (false, []).
Proof. repeat split; vm_compute; reflexivity. Qed.

Lemma full_name_strip (s : pystr) :
  is_full_name (VStr (strip s)) = is_full_name (VStr s).
Proof. unfold is_full_name. now rewrite strip_idem. Qed.

Lemma full_name_is_str (v : pyobj) :
  is_full_name v = true -> exists s, v = VStr s /\ truthy v = true.
Proof.
  destruct v as [| | |s]; try discriminate. intros H. exists s.
  split; [reflexivity|]. destruct s; [discriminate|reflexivity].
Qed.

Lemma step_keys_single (data : dict) (key : pystr) (value : pyobj) :
  step_keys data key value = []
  \/ step_keys data key value = [key].
Proof.
  destruct (step_keys data key value) as [|k l] eqn:E; [now left|right].
  assert (I : In k (step_keys data key value)) by (rewrite E; now left).
  apply step_keys_in in I. destruct I as (-> & _).
  f_equal. unfold step_keys in E. cbv zeta in E.
  repeat match type of E with
         | (if ?b then _ else _) = _ => destruct b
         end; try discriminate; now injection E.
Qed.

Lemma found_nodup (data : dict) : wf_dict data -> NoDup (found_of data).
Proof.
  unfold wf_dict, keys, found_of. generalize data at 2. intros d.
  induction data as [|[k v] data IH]; intros W; cbn [flat_map map fst snd].
  - constructor.
  - inversion W as [|? ? N W']; subst.
    destruct (step_keys_single d k v) as [-> | ->]; cbn [app]; [now apply IH|].
    constructor; [|now apply IH].
    intros H. apply N. apply in_flat_map in H.
    destruct H as ([k' v'] & I & S). cbn [fst snd] in S.
    apply step_keys_in in S. destruct S as (-> & _).
    apply in_map_iff. now exists (k', v').
Qed.

Lemma found_in_keys (data : dict) (k : pystr) :
  In k (found_of data) -> In k (keys data).
Proof.
  intros H. apply found_of_in in H. destruct H as (v & I & _).
  apply in_map_iff. now exists (k, v).
Qed.

Lemma three_distinct_members (l : list pystr) :
  In "name" l -> In "device_id" l -> In "ip_address" l -> 3 <= len l.
Proof.
  intros A B C.
  change 3 with (List.length ["name"; "device_id"; "ip_address"]).
  apply NoDup_incl_length.
  - repeat constructor; cbn [In]; intuition discriminate.
  - intros x [<-|[<-|[<-|[]]]]; assumption.
Qed.

Section NameWithDeviceAndIp.

Variable record : dict.
Variables vn vd vi : pyobj.
Hypothesis wf : wf_dict record.
Hypothesis has_name : In ("name", vn) record.
Hypothesis name_shaped : is_full_name vn = true.
Hypothesis has_device : In ("device_id", vd) record.
Hypothesis device_nonempty : truthy vd = true.
Hypothesis has_ip : In ("ip_address", vi) record.
Hypothesis ip_nonempty : truthy vi = true.

Lemma name_found : In "name" (found_of record).
Proof.
  apply found_of_in. exists vn. split; [exact has_name|].
  destruct (full_name_is_str _ name_shaped) as (s & -> & T).
  unfold step_keys. rewrite T. cbn [negb str].
  rewrite full_name_strip, name_shaped. now left.
Qed.

Lemma record_linked : linked_b record = true.
Proof.
  destruct (full_name_is_str _ name_shaped) as (s & E & T).
  unfold linked_b, present_b, name_signal.
  rewrite (in_dict_find _ _ _ wf has_name), T.
  subst vn. cbn [str]. now rewrite name_shaped.
Qed.

Lemma device_found : In "device_id" (found_of record).
Proof.
  apply found_of_in. exists vd. split; [exact has_device|].
  rewrite step_keys_device by reflexivity.
  rewrite device_nonempty, record_linked. now left.
Qed.

Lemma ip_found : In "ip_address" (found_of record).
Proof.
  apply found_of_in. exists vi. split; [exact has_ip|].
  rewrite step_keys_device by reflexivity.
  rewrite ip_nonempty, record_linked. now left.
Qed.

Lemma found_at_least_three : 3 <= len (found_of record).
Proof.
  apply three_distinct_members;
    [apply name_found|apply device_found|apply ip_found].
Qed.

Lemma found_exactly_three :
  ~ In "email" (keys record) -> ~ In "address" (keys record) ->
  len (found_of record) = 3.
Proof.
  intros NE NA. apply Nat.le_antisymm; [|apply found_at_least_three].
  change 3 with (List.length ["name"; "device_id"; "ip_address"]).
  apply NoDup_incl_length; [now apply found_nodup|].
  intros k H. pose proof (found_in_keys _ _ H) as K.
  apply found_contextual in H.
  unfold key_in, contextual_fields in H. cbn [existsb] in H.
  repeat (apply orb_true_iff in H; destruct H as [H|H]);
    try discriminate; apply str_eqb_eq in H; subst k; cbn [In]; tauto.
Qed.

End NameWithDeviceAndIp.

Lemma no_hit (record : dict) :
  (forall k v, In (k, v) record -> is_standalone_pii k v = false) ->
  existsb hit record = false.
Proof.
  intros H. destruct (existsb hit record) eqn:E; [|reflexivity].
  apply existsb_hit in E. destruct E as (k & v & I & S).
  rewrite (H k v I) in S. discriminate.
Qed.



Example name_device_ip_record :
  detect_combinatorial_pii
    [("name", VStr "Asha Rao"); ("device_id", VStr "abc123");
     ("ip_address", VStr "10.0.0.1")]
  = Ok (true, ["name"; "device_id"; "ip_address"])
  /\ process_record
       [("name", VStr "Asha Rao"); ("device_id", VStr "abc123");
        ("ip_address", VStr "10.0.0.1")]
     = Ok ([("name", VStr "AXXX RXXXX"); ("device_id", VStr "[REDACTED_PII]");
            ("ip_address", VStr "[REDACTED_PII]")], true).
Proof. split; vm_compute; reflexivity. Qed.

(* ===================================================================== *)
(** * Totality *)
(* ===================================================================== *)

Lemma standalone_loop_ok (items : dict) :
  forall acc is_pii,
    exists out b, standalone_loop items acc is_pii = Ok (out, b).
Proof.
  induction items as [|[key value] items IH]; intros acc is_pii.
  - now exists acc, is_pii.
  - cbn [standalone_loop].
    destruct (truthy value && is_standalone_pii key value); [|apply IH].
    rewrite mask_value_masked. cbn [bind]. apply IH.
Qed.

Lemma process_record_ok (record : dict) :
  exists out is_pii, process_record record = Ok (out, is_pii).
Proof.
  unfold process_record.
  destruct (standalone_loop_ok record [] false) as (rd & b & ->).
  cbn [bind]. destruct b; cbn [negb]; [eauto|].
  rewrite detect_spec. cbn [bind].
  destruct (2 <=? len (found_of record)); [|eauto].
  rewrite mask_found_spec. cbn [bind]. eauto.
Qed.

Lemma str_isdigit_with (c : ascii) (m : pystr) :
  In c m -> isdigit c = false -> str_isdigit m = false.
Proof.
  intros I D. unfold str_isdigit. apply andb_false_iff. right.
  destruct (forallb isdigit m) eqn:E; [|reflexivity].
  rewrite forallb_forall in E. rewrite (E c I) in D. discriminate.
Qed.

Lemma remask_generic (key m : pystr) :
  key = "phone" \/ key = "contact" \/ key = "aadhar" ->
  truthy (VStr m) = true -> str_isdigit (strip m) = false ->
  mask_value key (VStr m) = Ok (VStr generic_mask).
Proof.
  intros K T D. unfold mask_value. rewrite T. cbn [negb str].
  rewrite D, !andb_false_r. destruct K as [->|[->| ->]]; reflexivity.
Qed.

Lemma remask_phone (key v : pystr) :
  key = "phone" \/ key = "contact" ->
  decimal_digits 10 v ->
  mask_value key (VStr (firstn 2 v ++ "XXXXXX" ++ skipn 8 v))
  = Ok (VStr generic_mask).
Proof.
  intros K [L D].
  do 10 (destruct v as [|? v]; [discriminate L|]).
  destruct v; [|discriminate L].
  cbn [firstn skipn app].
  apply remask_generic; [tauto|reflexivity|].
  rewrite trimmed_strip.
  - apply str_isdigit_with with (c := "X"%char); [|reflexivity].
    cbn [In]. tauto.
  - apply nospace_trimmed. intros c I. cbn [In] in I.
    repeat (destruct I as [<-|I];
            [first [reflexivity | apply decimal_not_space, D; cbn [In]; tauto]|]).
    destruct I.
Qed.

Lemma remask_aadhar (v : pystr) :
  decimal_digits 12 v ->
  mask_value "aadhar" (VStr (firstn 4 v ++ "XXXX" ++ skipn 8 v))
  = Ok (VStr generic_mask).
Proof.
  intros [L D].
  do 12 (destruct v as [|? v]; [discriminate L|]).
  destruct v; [|discriminate L].
  cbn [firstn skipn app].
  apply remask_generic; [tauto|reflexivity|].
  rewrite trimmed_strip.
  - apply str_isdigit_with with (c := "X"%char); [|reflexivity].
    cbn [In]. tauto.
  - apply nospace_trimmed. intros c I. cbn [In] in I.
    repeat (destruct I as [<-|I];
            [first [reflexivity | apply decimal_not_space, D; cbn [In]; tauto]|]).
    destruct I.
Qed.

Lemma falsy_no_name (v : pyobj) : truthy v = false -> is_full_name v = false.
Proof.
  destruct v as [| | |s]; try reflexivity.
  destruct s; [reflexivity|discriminate].
Qed.

Lemma falsy_no_address (v : pyobj) :
  truthy v = false -> is_physical_address v = false.
Proof.
  destruct v as [| | |s]; try reflexivity.
  destruct s; [reflexivity|discriminate].
Qed.

Lemma falsy_not_standalone (key : pystr) (v : pyobj) :
  truthy v = false -> is_standalone_pii key v = false.
Proof. intros T. unfold is_standalone_pii. now rewrite T. Qed.

Lemma all_falsy_untouched (record : dict) :
  wf_dict record ->
  (forall k v, In (k, v) record -> truthy v = false) ->
  process_record record = Ok (record, false).
Proof.
  intros W F. rewrite process_record_spec by exact W.
  assert (E : existsb hit record = false).
  { apply no_hit. intros k v I. apply falsy_not_standalone. eauto. }
  rewrite E, (first_pass_all_miss _ E).
  assert (N : found_of record = []).
  { destruct (found_of record) as [|k l] eqn:Q; [reflexivity|].
    assert (I : In k (found_of record)) by (rewrite Q; now left).
    apply found_of_in in I. destruct I as (v & I & S).
    apply step_keys_in in S. destruct S as (_ & T & _).
    rewrite (F k v I) in T. discriminate. }
  rewrite N. reflexivity.
Qed.

(** C9. Every core function is total over its input domain. For every field
    name and string value, [mask_value] returns a string and never raises;
    masking an already-masked value a second time never raises, and falls
    back to the generic mask once the digit format no longer holds (a masked
    phone or aadhar number); [detect_combinatorial_pii] and
    [process_record] never raise. Empty values are returned unchanged by
    [mask_value] and carry no PII signal for any detector. *)
Theorem core_functions_are_total :
  (forall key s, exists s', mask_value key (VStr s) = Ok (VStr s'))
  /\ (forall key v, exists r, mask_value key v = Ok r)
  /\ (forall key s, exists s1 s2,
         mask_value key (VStr s) = Ok (VStr s1)
         /\ mask_value key (VStr s1) = Ok (VStr s2))
  /\ (forall key v,
         key = "phone" \/ key = "contact" -> decimal_digits 10 v ->
         exists m, mask_value key (VStr v) = Ok (VStr m)
                   /\ mask_value key (VStr m) = Ok (VStr generic_mask))
  /\ (forall v,
         decimal_digits 12 v ->
         exists m, mask_value "aadhar" (VStr v) = Ok (VStr m)
                   /\ mask_value "aadhar" (VStr m) = Ok (VStr generic_mask))
  /\ (forall data, exists has_combinatorial found_pii,
         detect_combinatorial_pii data = Ok (has_combinatorial, found_pii)
         /\ forall k, In k found_pii ->
                      exists v, In (k, v) data /\ truthy v = true)
  /\ (forall record, exists out is_pii,
         process_record record = Ok (out, is_pii))
  /\ (forall key v,
         truthy v = false ->
         mask_value key v = Ok v
         /\ is_standalone_pii key v = false
         /\ is_full_name v = false
         /\ is_physical_address v = false)
  /\ (forall record,
         wf_dict record ->
         (forall k v, In (k, v) record -> truthy v = false) ->
         process_record record = Ok (record, false)).
Proof.
  split; [exact mask_value_str_ok|].
  split; [exact mask_value_ok|].
  split.
  { intros key s. destruct (mask_value_str_ok key s) as [s1 H1].
    destruct (mask_value_str_ok key s1) as [s2 H2]. now exists s1, s2. }
  split.
  { intros key v K D. eexists. split.
    - now apply mask_phone_shape.
    - now apply remask_phone. }
  split.
  { intros v D. eexists. split.
    - now apply mask_aadhar_shape.
    - now apply remask_aadhar. }
  split.
  { intros data. eexists _, _. split; [apply detect_spec|].
    intros k I. apply found_of_in in I. destruct I as (v & I & S).
    apply step_keys_in in S. exists v. tauto. }
  split; [exact process_record_ok|].
  split.
  { intros key v T.
    auto using mask_value_falsy, falsy_not_standalone, falsy_no_name,
      falsy_no_address. }
  exact all_falsy_untouched.
Qed.

Lemma ten_digits_example : decimal_digits 10 "9876543210".
Proof.
  split; [reflexivity|]. intros c I. cbn [In] in I.
  repeat (destruct I as [<-|I]; [reflexivity|]). destruct I.
Defined.

Lemma core_functions_are_total_witness :
  exists m, mask_value "phone" (VStr "9876543210") = Ok (VStr m)
            /\ mask_value "phone" (VStr m) = Ok (VStr generic_mask).
Proof.
  exact (proj1 (proj2 (proj2 (proj2 core_functions_are_total)))
           "phone" "9876543210" (or_introl eq_refl) ten_digits_example).
Defined.

Example remask_phone_example :
  mask_value "phone" (VStr "9876543210") = Ok (VStr "98XXXXXX10")
  /\ mask_value "phone" (VStr "98XXXXXX10") = Ok (VStr "[REDACTED_PII]")
  /\ mask_value "name" (VStr "Asha Rao") = Ok (VStr "AXXX RXXXX")
  /\ mask_value "name" (VStr "AXXX RXXXX") = Ok (VStr "AXXX RXXXX")
  /\ mask_value "email" (VStr "asha@example.com") = Ok (VStr "asXXX@example.com")
  /\ mask_value "email" (VStr "asXXX@example.com")
     = Ok (VStr "asXXX@example.com").
Proof. repeat split; vm_compute; reflexivity. Qed.

(* ===================================================================== *)
(** * The name mask *)
(* ===================================================================== *)

Lemma name_char_not_space (c : ascii) : name_char c = true -> isspace c = false.
Proof. each_char c. Qed.

Lemma masked_first_ok (c : ascii) :
  name_char c = true -> name_part_ok (c :: "XXX") = true.
Proof. each_char c. Qed.

Lemma masked_last_ok (c : ascii) :
  name_char c = true -> name_part_ok (c :: "XXXX") = true.
Proof. each_char c. Qed.

Lemma name_part_head (part : pystr) :
  name_part_ok part = true ->
  exists c t, part = c :: t /\ name_char c = true.
Proof.
  destruct part as [|c t]; [discriminate|]. intros H. exists c, t.
  split; [reflexivity|]. unfold name_char.
  destruct (Ascii.eqb c "-") eqn:E1; [now rewrite orb_true_r|].
  destruct (Ascii.eqb c "'") eqn:E2; [now rewrite orb_true_r|].
  rewrite !orb_false_r.
  unfold name_part_ok, replace in H. cbn [flat_map] in H.
  rewrite E1 in H. cbn [app flat_map] in H. rewrite E2 in H.
  cbn [app] in H. unfold str_isalpha in H. cbn [null negb forallb andb] in H.
  apply andb_true_iff in H. tauto.
Qed.

(** [split] on a token followed by whitespace, and on a lone token. *)
Lemma split_token (w : pystr) :
  w <> [] -> (forall c, In c w -> isspace c = false) -> split w = [w].
Proof.
  induction w as [|c w IH]; [congruence|]. intros _ N.
  cbn [split]. rewrite (N c) by now left.
  destruct w as [|d w]; [reflexivity|].
  rewrite (N d) by (right; now left).
  rewrite IH; [reflexivity|discriminate|].
  intros x I. apply N. now right.
Qed.

Lemma split_token_then (w : pystr) (sp : ascii) (rest : pystr) :
  (forall c, In c w -> isspace c = false) -> isspace sp = true ->
  forall c, isspace c = false ->
  split (c :: w ++ sp :: rest) = (c :: w) :: split (sp :: rest).
Proof.
  intros N S. induction w as [|d w IH]; intros c C.
  - cbn [app split]. rewrite C, S. reflexivity.
  - change (split (c :: (d :: w) ++ sp :: rest))
      with (if isspace c then split (d :: w ++ sp :: rest)
            else if isspace d then [c] :: split (d :: w ++ sp :: rest)
            else match split (d :: w ++ sp :: rest) with
                 | x :: ws => (c :: x) :: ws
                 | [] => [[c]]
                 end).
    rewrite C, (N d) by now left.
    rewrite IH; [reflexivity| |apply N; now left].
    intros x I. apply N. now right.
Qed.

Lemma last_default {A} (a d d' : A) (l : list A) :
  last (a :: l) d = last (a :: l) d'.
Proof.
  revert a. induction l as [|b l IH]; intros a; [reflexivity|].
  change (last (a :: b :: l) d) with (last (b :: l) d).
  change (last (a :: b :: l) d') with (last (b :: l) d'). apply IH.
Qed.

Lemma last_in {A} (a d : A) (l : list A) : In (last (a :: l) d) (a :: l).
Proof.
  revert a. induction l as [|b l IH]; intros a; [now left|].
  change (last (a :: b :: l) d) with (last (b :: l) d). right. apply IH.
Qed.

Lemma name_mask_shape (c1 c2 : ascii) :
  name_char c1 = true -> name_char c2 = true ->
  is_full_name (VStr (c1 :: "XXX" ++ " " ++ c2 :: "XXXX")) = true.
Proof.
  intros N1 N2. unfold is_full_name. cbn [app].
  rewrite trimmed_strip.
  2:{ split; apply lstrip_fix.
      - now apply name_char_not_space.
      - reflexivity. }
  rewrite (split_token_then "XXX" " " (c2 :: "XXXX"));
    [|intros c I; cbn [In] in I;
      repeat (destruct I as [<-|I]; [reflexivity|]); destruct I
     |reflexivity|now apply name_char_not_space].
  change (split (" "%char :: c2 :: "XXXX")) with (split (c2 :: "XXXX")).
  rewrite split_token; [|discriminate|].
  - cbn [len List.length Nat.leb forallb].
    now rewrite masked_first_ok, masked_last_ok.
  - intros c I. cbn [In] in I.
    destruct I as [<-|I]; [now apply name_char_not_space|].
    repeat (destruct I as [<-|I]; [reflexivity|]). destruct I.
Qed.

(** C10. For every string [v] that [is_full_name] accepts, [mask_value] on
    the field [name] returns the first character of the first token, then
    XXX, a single space, the first character of the last token, then XXXX;
    and [is_full_name] accepts that masked output again. *)
Theorem name_mask_is_full_name (v : pystr) :
  is_full_name (VStr v) = true ->
  exists first_token last_token c1 c2,
    hd_error (split (strip v)) = Some first_token
    /\ last (split (strip v)) [] = last_token
    /\ hd_error first_token = Some c1
    /\ hd_error last_token = Some c2
    /\ mask_value "name" (VStr v)
       = Ok (VStr ([c1] ++ "XXX" ++ " " ++ [c2] ++ "XXXX"))
    /\ is_full_name (VStr ([c1] ++ "XXX" ++ " " ++ [c2] ++ "XXXX")) = true.
Proof.
  intros H.
  assert (T : truthy (VStr v) = true) by (destruct v; [discriminate|reflexivity]).
  unfold is_full_name in H.
  destruct (2 <=? len (split (strip v))) eqn:L; [|discriminate].
  apply Nat.leb_le in L. rewrite forallb_forall in H.
  destruct (split (strip v)) as [|first rest] eqn:P; [cbn in L; lia|].
  destruct (name_part_head first (H first (or_introl eq_refl)))
    as (c1 & t1 & -> & N1).
  destruct (name_part_head _ (H _ (last_in (c1 :: t1) [] rest)))
    as (c2 & t2 & E2 & N2).
  exists (c1 :: t1), (c2 :: t2), c1, c2.
  split; [reflexivity|]. split; [exact E2|].
  split; [reflexivity|]. split; [reflexivity|].
  split; [|now apply name_mask_shape].
  unfold mask_value. rewrite T. cbn [negb str]. rewrite P.
  rewrite getitem_last. unfold pystr in *.
  rewrite (last_default (c1 :: t1) (c1 :: t1) [] rest), E2.
  destruct rest as [|second rest]; [cbn in L; lia|]. reflexivity.
Qed.

Lemma name_mask_is_full_name_witness :
  exists first_token last_token c1 c2,
    hd_error (split (strip "Asha Rao")) = Some first_token
    /\ last (split (strip "Asha Rao")) [] = last_token
    /\ hd_error first_token = Some c1
    /\ hd_error last_token = Some c2
    /\ mask_value "name" (VStr "Asha Rao")
       = Ok (VStr ([c1] ++ "XXX" ++ " " ++ [c2] ++ "XXXX"))
    /\ is_full_name (VStr ([c1] ++ "XXX" ++ " " ++ [c2] ++ "XXXX")) = true.
Proof.
  apply (name_mask_is_full_name "Asha Rao"). vm_compute. reflexivity.
Defined.

Example name_mask_examples :
  mask_value "name" (VStr "Asha Rao") = Ok (VStr "AXXX RXXXX")
  /\ is_full_name (VStr "AXXX RXXXX") = true
  /\ mask_value "name" (VStr "  O'Brien van der Smith-Jones ")
     = Ok (VStr "OXXX SXXXX")
  /\ mask_value "name" (VStr "-a 'b") = Ok (VStr "-XXX 'XXXX")
  /\ is_full_name (VStr "-XXX 'XXXX") = true
  /\ is_full_name (VStr "Asha") = false
  /\ is_full_name (VStr "O'Brien Smith-Jones") = true.
Proof. repeat split; vm_compute; reflexivity. Qed.

(* ===================================================================== *)
(** * The address heuristic against the specification's wording *)
(* ===================================================================== *)

Lemma existsb_map_seq (f : nat -> bool) (n : nat) :
  existsb f (seq 1 n) = existsb (fun i => f (S i)) (seq 0 n).
Proof.
  rewrite <- seq_shift. generalize (seq 0 n). intros l.
  induction l as [|a l IH]; [reflexivity|].
  cbn [map existsb]. now rewrite IH.
Qed.

Lemma existsb_eq {A} (f g : A -> bool) (l : list A) :
  (forall a, f a = g a) -> existsb f l = existsb g l.
Proof.
  intros E. induction l as [|a l IH]; [reflexivity|].
  cbn [existsb]. now rewrite E, IH.
Qed.

Lemma positions_any_suffix (P : pystr -> bool) (s : pystr) :
  existsb (fun i => P (skipn i s)) (seq 0 (S (len s))) = any_suffix P s.
Proof.
  induction s as [|c s IH].
  - cbn. now rewrite orb_false_r.
  - change (seq 0 (S (len (c :: s)))) with (0 :: seq 1 (S (len s))).
    cbn [existsb any_suffix]. rewrite existsb_map_seq.
    change (skipn 0 (c :: s)) with (c :: s). f_equal. exact IH.
Qed.

Lemma search_any_suffix (r : regex) (P : pystr -> bool) (s : pystr) :
  (forall i, negb (null (ends r s i)) = P (skipn i s)) ->
  search r s = any_suffix P s.
Proof.
  intros E. unfold search. rewrite <- positions_any_suffix.
  now apply existsb_eq.
Qed.

Lemma number_at (s : pystr) (i : nat) :
  negb (null (ends number_pattern s i)) = starts_with_digit (skipn i s).
Proof.
  unfold number_pattern, plus. cbn [ends].
  destruct (skipn i s) as [|c t]; [reflexivity|].
  cbn [run starts_with_digit]. rewrite mem_digit.
  destruct (isdecimal c); reflexivity.
Qed.

Lemma has_number_spec (s : pystr) :
  search number_pattern s = Spec.has_digit s.
Proof.
  rewrite (search_any_suffix number_pattern starts_with_digit)
    by apply number_at.
  unfold Spec.has_digit. induction s as [|c s IH]; [reflexivity|].
  cbn [any_suffix existsb starts_with_digit]. now rewrite IH.
Qed.

(** ** Keywords *)

Lemma startswith_firstn (p t : pystr) :
  startswith p t = str_eqb (firstn (len p) t) p.
Proof.
  revert t. induction p as [|a p IH]; intros t; [reflexivity|].
  destruct t as [|b t]; [reflexivity|].
  change (startswith (a :: p) (b :: t)) with (Ascii.eqb a b && startswith p t).
  change (firstn (len (a :: p)) (b :: t)) with (b :: firstn (len p) t).
  rewrite IH.
  destruct (Ascii.eqb a b) eqn:E.
  - apply Ascii.eqb_eq in E. subst b. cbn [andb].
    destruct (str_eqb (firstn (len p) t) p) eqn:F.
    + apply str_eqb_eq in F. symmetry. apply str_eqb_eq. now rewrite F.
    + apply str_eqb_neq in F. symmetry. apply str_eqb_neq. congruence.
  - apply Ascii.eqb_neq in E. cbn [andb]. symmetry.
    apply str_eqb_neq. congruence.
Qed.

Lemma contains_any_suffix (sub s : pystr) :
  contains sub s = any_suffix (startswith sub) s.
Proof. induction s as [|c s IH]; cbn [contains any_suffix]; now rewrite ?IH. Qed.

Lemma any_suffix_map (P : pystr -> bool) (f : ascii -> ascii) (s : pystr) :
  any_suffix P (map f s) = any_suffix (fun t => P (map f t)) s.
Proof.
  induction s as [|c s IH]; [reflexivity|].
  cbn [map any_suffix]. now rewrite IH.
Qed.

Lemma any_suffix_ext (P Q : pystr -> bool) (s : pystr) :
  (forall t, P t = Q t) -> any_suffix P s = any_suffix Q s.
Proof.
  intros E. induction s as [|c s IH]; cbn [any_suffix]; now rewrite E, ?IH.
Qed.

Lemma keyword_spec (keyword s : pystr) :
  contains keyword (str_lower s) = Spec.occurs_ignoring_case keyword s.
Proof.
  unfold Spec.occurs_ignoring_case, str_lower.
  rewrite contains_any_suffix, any_suffix_map.
  rewrite (positions_any_suffix
             (fun t => str_eqb (map lower_char (firstn (len keyword) t)) keyword)).
  apply any_suffix_ext. intros t.
  rewrite startswith_firstn. now rewrite firstn_map.
Qed.

Lemma has_keyword_spec (s : pystr) :
  existsb (fun keyword => contains keyword (str_lower s)) address_keywords
  = Spec.has_keyword s.
Proof.
  unfold Spec.has_keyword, address_keywords. apply existsb_eq.
  intros keyword. apply keyword_spec.
Qed.

(** ** The postal code *)

Lemma nth_error_skipn_add (s : pystr) (i k : nat) :
  nth_error (skipn i s) k = nth_error s (i + k).
Proof.
  revert s. induction i as [|i IH]; intros s; [reflexivity|].
  destruct s as [|c s]; [now destruct k|]. apply IH.
Qed.

Lemma run_member (cs : cset) (t : pystr) :
  forall k, k < run cs t ->
            exists c, nth_error t k = Some c /\ mem cs c = true.
Proof.
  induction t as [|c t IH]; intros k H; [cbn in H; lia|].
  cbn [run] in H. destruct (mem cs c) eqn:M; [|lia].
  destruct k as [|k]; [now exists c|].
  apply IH. lia.
Qed.

Lemma run_word (s : pystr) (i k : nat) :
  k < run [Digit] (skipn i s) -> word_at s (i + k) = true.
Proof.
  intros H. apply run_member in H. destruct H as (c & N & M).
  rewrite nth_error_skipn_add in N. unfold word_at. rewrite N.
  rewrite mem_digit in M. now apply decimal_is_word.
Qed.

Lemma six_digits_run (s : pystr) (i : nat) :
  Spec.six_digits_at s i = true <-> 6 <= run [Digit] (skipn i s).
Proof.
  unfold Spec.six_digits_at. rewrite run_firstn, andb_true_iff, Nat.eqb_eq.
  rewrite forallb_mem_digit. unfold len. rewrite length_firstn.
  split; intros [L D]; (split; [lia|exact D]).
Qed.

Lemma boundary_before_digits (s : pystr) (i : nat) :
  0 < run [Digit] (skipn i s) ->
  boundary s i = negb (Spec.word_char_before s i).
Proof.
  intros H. unfold boundary.
  replace (word_at s i) with true
    by (symmetry; rewrite <- (Nat.add_0_r i); now apply run_word).
  rewrite xorb_true_r. reflexivity.
Qed.

Lemma boundary_after_digits (s : pystr) (i : nat) :
  6 <= run [Digit] (skipn i s) ->
  boundary s (i + 6) = negb (Spec.word_char_at s (i + 6)).
Proof.
  intros H. unfold boundary.
  replace (i + 6) with (S (i + 5)) by lia.
  rewrite run_word by lia. reflexivity.
Qed.

Lemma pincode_at (s : pystr) (i : nat) :
  negb (null (ends pincode_pattern s i))
  = negb (Spec.word_char_before s i) && Spec.six_digits_at s i
    && negb (Spec.word_char_at s (i + 6)).
Proof.
  apply eq_iff_eq_true. rewrite not_null_iff. split.
  - intros [j H]. apply ends_span in H. cbn [pincode_pattern seqs span] in H.
    destruct H as (m & [B1 ->] & m' & (k & -> & K1 & K2 & K3) & B2 & _).
    cbn [exactly] in *.
    assert (k = 6) by (unfold exactly in *; lia). subst k.
    rewrite boundary_before_digits in B1 by lia.
    rewrite boundary_after_digits in B2 by exact K2.
    rewrite B1, B2, (proj2 (six_digits_run s i) K2). reflexivity.
  - intros H. apply andb_true_iff in H. destruct H as [H B2].
    apply andb_true_iff in H. destruct H as [B1 D].
    apply six_digits_run in D.
    exists (i + 6). apply ends_span. cbn [pincode_pattern seqs span].
    exists i. split; [split; [|reflexivity]|].
    + now rewrite boundary_before_digits by lia.
    + exists (i + 6). split.
      * exists 6. repeat split; auto.
      * split; [|reflexivity]. now rewrite boundary_after_digits by exact D.
Qed.

Lemma existsb_seq_last (f : nat -> bool) (n : nat) :
  existsb f (seq 0 (S n)) = existsb f (seq 0 n) || f n.
Proof.
  rewrite seq_S, existsb_app. cbn [existsb Nat.add]. now rewrite orb_false_r.
Qed.

Lemma has_pincode_spec (s : pystr) :
  search pincode_pattern s = Spec.has_postal_code s.
Proof.
  unfold search, Spec.has_postal_code.
  rewrite (existsb_eq _ _ _ (pincode_at s)), existsb_seq_last.
  assert (E : Spec.six_digits_at s (len s) = false).
  { unfold Spec.six_digits_at, len. rewrite skipn_all. reflexivity. }
  rewrite E, andb_false_r. cbn [andb]. apply orb_false_r.
Qed.

(** C8. For every string value, [is_physical_address] is true exactly when
    the value contains a digit, contains a comma and has at least 5
    whitespace-separated tokens, or it contains a standalone 6-digit token
    and one of the keywords road, street, lane, avenue, nagar, colony, park
    in any letter case. On the address 221B, Baker Street, Near Park,
    560001 it is true, and both paths hold there. *)
Theorem address_heuristic_two_paths :
  (forall s : pystr,
      is_physical_address (VStr s) = true
      <-> (Spec.has_digit s = true /\ Spec.has_comma s = true
           /\ 5 <= Spec.token_count s)
          \/ (Spec.has_postal_code s = true /\ Spec.has_keyword s = true))
  /\ is_physical_address (VStr "221B, Baker Street, Near Park, 560001") = true
  /\ Spec.has_postal_code "221B, Baker Street, Near Park, 560001" = true
  /\ Spec.has_keyword "221B, Baker Street, Near Park, 560001" = true
  /\ Spec.has_digit "221B, Baker Street, Near Park, 560001" = true
  /\ Spec.has_comma "221B, Baker Street, Near Park, 560001" = true
  /\ Spec.token_count "221B, Baker Street, Near Park, 560001" = 6.
Proof.
  split; [|repeat split; vm_compute; reflexivity].
  intros s. unfold is_physical_address.
  rewrite has_number_spec, has_pincode_spec, has_keyword_spec.
  change (contains_char "," s) with (Spec.has_comma s).
  change (len (split s)) with (Spec.token_count s).
  rewrite orb_true_iff, !andb_true_iff, Nat.leb_le. tauto.
Qed.

Example address_examples :
  is_physical_address (VStr "12, MG ROAD, Pune 411001") = true
  /\ is_physical_address (VStr "Flat 4, Green Colony") = false
  /\ is_physical_address (VStr "near park 560001") = true
  /\ is_physical_address (VStr "near park 5600012") = false
  /\ is_physical_address (VStr "near park x560001") = false
  /\ is_physical_address (VStr "a, b c d 1") = true
  /\ is_physical_address VNone = false.
Proof. repeat split; vm_compute; reflexivity. Qed.

(* ===================================================================== *)
(** * The email shape *)
(* ===================================================================== *)

(** The members of the three bracketed sets of [email_pattern]. *)
Lemma email_tld_members (c : ascii) :
  mem email_tld c
  = in_range 65 90 c || Ascii.eqb c "|" || in_range 97 122 c.
Proof.
  unfold mem, email_tld. cbn [existsb item_mem].
  rewrite orb_false_r, !orb_assoc. reflexivity.
Qed.

(** C7. The email-shape predicate of the combinatorial detector is meant to
    accept only a top-level domain of at least 2 alphabetic characters. The
    compiled pattern accepts the value a@b.c| : its last set is written
    [A-Z|a-z], so the vertical bar is a member, although it is not
    alphabetic; and the detector counts such an [email] field. *)
Theorem email_tld_accepts_vertical_bar :
  matches email_pattern "a@b.c|" = true
  /\ mem email_tld "|" = true
  /\ isalpha "|" = false
  /\ detect_combinatorial_pii
       [("name", VStr "Asha Rao"); ("email", VStr "a@b.c|")]
     = Ok (true, ["name"; "email"])
  /\ matches email_pattern "asha.rao@example.com" = true
  /\ matches email_pattern "asha.rao@example.c0m" = false
  /\ matches email_pattern "asha.rao@example.c" = false.
Proof. repeat split; vm_compute; reflexivity. Qed.

(* ===================================================================== *)
(** * The other standalone formats: aadhar, passport, upi_id *)
(* ===================================================================== *)

Lemma falsy_no_at (v : pyobj) :
  truthy v = false -> contains_char "@" (strip (str v)) = false.
Proof.
  destruct v as [|[|]|z|s]; simpl; try discriminate.
  - intros _. vm_compute. reflexivity.
  - intros _. vm_compute. reflexivity.
  - intros H. apply negb_false_iff, Z.eqb_eq in H. subst z. vm_compute.
    reflexivity.
  - destruct s; [|discriminate]. intros _. vm_compute. reflexivity.
Qed.

Lemma standalone_aadhar (v : pyobj) :
  is_standalone_pii "aadhar" v
  = if negb (truthy v) then false else matches aadhar_pattern (strip (str v)).
Proof. reflexivity. Qed.

Lemma standalone_passport (v : pyobj) :
  is_standalone_pii "passport" v
  = if negb (truthy v) then false else matches passport_pattern (strip (str v)).
Proof. reflexivity. Qed.

Lemma standalone_upi (v : pyobj) :
  is_standalone_pii "upi_id" v
  = if negb (truthy v) then false else matches upi_pattern (strip (str v)).
Proof. reflexivity. Qed.

(** X1. [is_standalone_pii] on [aadhar] is true exactly when the trimmed
    string form of the value consists of exactly 12 decimal digits. *)
Theorem aadhar_standalone_iff_twelve_digits (v : pyobj) :
  is_standalone_pii "aadhar" v = true <-> decimal_digits 12 (strip (str v)).
Proof.
  rewrite standalone_aadhar. destruct (truthy v) eqn:T; cbn [negb].
  - unfold aadhar_pattern. rewrite digits_pattern by apply strip_trimmed.
    symmetry. apply decimal_digits_forallb.
  - split; [discriminate|]. intros [L _].
    apply falsy_str_short in T. lia.
Qed.

Lemma mem_upper (c : ascii) : mem [Rng "A" "Z"] c = in_range 65 90 c.
Proof. unfold mem. cbn [existsb item_mem]. apply orb_false_r. Qed.

Lemma mem_chr (a c : ascii) : mem [Chr a] c = true <-> c = a.
Proof.
  unfold mem. cbn [existsb item_mem]. rewrite orb_false_r. apply Ascii.eqb_eq.
Qed.

(** [^[A-Z]\d{7}$] on a trimmed string. *)
Lemma passport_shape (s : pystr) :
  trimmed s ->
  matches passport_pattern s = true
  <-> exists c t, s = c :: t /\ in_range 65 90 c = true /\ decimal_digits 7 t.
Proof.
  intros T. rewrite matches_span. cbn [passport_pattern seqs span]. split.
  - intros (j & m & [_ ->] & m1 & (c & N & M & ->)
            & m2 & (k & -> & K1 & K2 & K3) & E & _).
    unfold exactly in *. assert (k = 7) by lia. subst k.
    destruct s as [|c' t]; [discriminate|]. injection N as ->.
    exists c, t. split; [reflexivity|]. rewrite mem_upper in M.
    split; [exact M|]. apply decimal_digits_forallb.
    apply at_eol_trimmed in E; [|exact T].
    apply run_firstn in K2. destruct K2 as [_ K2].
    change (skipn 1 (c :: t)) with t in K2.
    assert (L : len t = 7) by (unfold len in *; cbn [List.length] in E; lia).
    split; [exact L|]. rewrite <- L in K2. unfold len in K2.
    rewrite firstn_all in K2. now rewrite forallb_mem_digit in K2.
  - intros (c & t & -> & U & D). apply decimal_digits_forallb in D.
    destruct D as [L D].
    exists 8, 0. split; [auto|]. exists 1. split.
    { exists c. rewrite mem_upper. auto. }
    exists 8. split.
    + exists 7. unfold exactly. repeat split; try lia.
      change (skipn 1 (c :: t)) with t. apply run_firstn. split; [lia|].
      rewrite <- L. unfold len. rewrite firstn_all.
      now rewrite forallb_mem_digit.
    + split; [|reflexivity].
      replace 8 with (len (c :: t)) by (unfold len in *; cbn [List.length]; lia).
      apply at_eol_end.
Qed.

(** X2. [is_standalone_pii] on [passport] is true exactly when the trimmed
    string form of the value is one letter A..Z followed by exactly 7
    decimal digits. *)
Theorem passport_standalone_iff_letter_and_seven_digits (v : pyobj) :
  is_standalone_pii "passport" v = true
  <-> exists c t,
        strip (str v) = c :: t /\ in_range 65 90 c = true
        /\ decimal_digits 7 t.
Proof.
  rewrite standalone_passport. destruct (truthy v) eqn:T; cbn [negb].
  - apply passport_shape, strip_trimmed.
  - split; [discriminate|]. intros (c & t & E & _ & [L _]).
    apply falsy_str_short in T. rewrite E in T.
    unfold len in *. cbn [List.length] in T. lia.
Qed.

(** ** user@handle patterns *)

Lemma firstn_exact {A} (l1 l2 : list A) : firstn (len l1) (l1 ++ l2) = l1.
Proof.
  unfold len. induction l1 as [|a l1 IH]; [reflexivity|].
  cbn [List.length firstn app]. now rewrite IH.
Qed.

Lemma skipn_exact {A} (l1 l2 : list A) : skipn (len l1) (l1 ++ l2) = l2.
Proof. induction l1 as [|a l1 IH]; [reflexivity|]. exact IH. Qed.

Lemma skipn_past {A} (l1 l2 : list A) (a : A) :
  skipn (S (len l1)) (l1 ++ a :: l2) = l2.
Proof. induction l1 as [|b l1 IH]; [reflexivity|]. exact IH. Qed.

Lemma nth_error_middle {A} (l1 l2 : list A) (a : A) :
  nth_error (l1 ++ a :: l2) (len l1) = Some a.
Proof. induction l1 as [|b l1 IH]; [reflexivity|]. exact IH. Qed.

Lemma len_app {A} (l1 l2 : list A) : len (l1 ++ l2) = len l1 + len l2.
Proof. unfold len. apply length_app. Qed.

Lemma run_prefix (cs : cset) (u rest : pystr) :
  forallb (mem cs) u = true -> len u <= run cs (u ++ rest).
Proof.
  intros H. apply run_firstn. split.
  - rewrite len_app. lia.
  - now rewrite firstn_exact.
Qed.

Lemma run_whole (cs : cset) (h : pystr) (k : nat) :
  k <= run cs h -> k = len h -> forallb (mem cs) h = true.
Proof.
  intros K ->. apply run_firstn in K. destruct K as [_ K].
  unfold len in K. now rewrite firstn_all in K.
Qed.

(** [^A{lo,hi}@B+$] on a trimmed string. *)
Lemma user_at_handle (A B : cset) (lo : nat) (hi : option nat) (s : pystr) :
  trimmed s ->
  matches (seqs [Bol; Rep A lo hi; lit "@"; plus B; Eol]) s = true
  <-> exists u h,
        s = u ++ "@"%char :: h
        /\ lo <= len u
        /\ match hi with Some x => len u <= x | None => True end
        /\ forallb (mem A) u = true
        /\ h <> [] /\ forallb (mem B) h = true.
Proof.
  intros T. rewrite matches_span. cbn [seqs span lit plus]. split.
  - intros (j & m & [_ ->] & m1 & (k1 & -> & K1 & R1 & H1)
            & m2 & (c & N & M & ->) & m3 & (k2 & -> & K2 & R2 & _) & E & _).
    apply mem_chr in M. subst c. cbn [Nat.add] in *.
    apply at_eol_trimmed in E; [|exact T].
    destruct (nth_error_split s k1 N) as (u & h & -> & L).
    change (List.length u) with (len u) in L. subst k1.
    change (skipn 0 (u ++ "@"%char :: h)) with (u ++ "@"%char :: h) in R1.
    rewrite skipn_past in R2.
    rewrite len_app in E. change (len ("@"%char :: h)) with (S (len h)) in E.
    exists u, h. split; [reflexivity|]. split; [exact K1|]. split; [exact H1|].
    split.
    { apply run_firstn in R1. destruct R1 as [_ R1].
      now rewrite firstn_exact in R1. }
    split.
    { destruct h; [unfold len in *; cbn [List.length] in E; lia|discriminate]. }
    apply (run_whole _ _ k2 R2). lia.
  - intros (u & h & -> & K1 & H1 & FA & NE & FB).
    exists (len (u ++ "@"%char :: h)), 0. split; [auto|].
    exists (len u). split.
    { exists (len u). cbn [Nat.add]. repeat split; auto.
      now apply run_prefix. }
    exists (S (len u)). split.
    { exists "@"%char. rewrite nth_error_middle. repeat split. }
    exists (S (len u) + len h). split.
    + exists (len h). rewrite skipn_past. repeat split.
      * destruct h; [congruence|unfold len; cbn [List.length]; lia].
      * apply run_firstn. split; [lia|].
        unfold len. now rewrite firstn_all.
    + replace (S (len u) + len h) with (len (u ++ "@"%char :: h)).
      * split; [apply at_eol_end|reflexivity].
      * rewrite len_app. unfold len. cbn [List.length]. lia.
Qed.

Lemma matches_alt (r1 r2 : regex) (s : pystr) :
  matches (Alt r1 r2) s = matches r1 s || matches r2 s.
Proof.
  unfold matches. cbn [ends].
  destruct (ends r1 s 0); [|reflexivity]. reflexivity.
Qed.

Lemma digit_in_upi_set (c : ascii) : mem [Digit] c = true -> mem upi_set c = true.
Proof. each_char c. Qed.

Lemma word_in_upi_set (c : ascii) : mem [Word] c = true -> mem upi_set c = true.
Proof. each_char c. Qed.

Lemma upi_set_not_space (c : ascii) : mem upi_set c = true -> isspace c = false.
Proof. each_char c. Qed.

Lemma upi_set_not_at (c : ascii) :
  mem upi_set c = true -> Ascii.eqb "@" c = false.
Proof. each_char c. Qed.

Lemma forallb_weaken {A} (P Q : A -> bool) (l : list A) :
  (forall a, P a = true -> Q a = true) ->
  forallb P l = true -> forallb Q l = true.
Proof.
  intros I H. rewrite forallb_forall in *. auto.
Qed.

Lemma upi_shape (s : pystr) :
  trimmed s -> matches upi_pattern s = true <-> upi_shaped s.
Proof.
  intros T. unfold upi_pattern. rewrite matches_alt, orb_true_iff.
  change (seqs [Bol; plus [Word; Chr "."; Chr "-"]; lit "@";
                plus [Word; Chr "."; Chr "-"]; Eol])
    with (seqs [Bol; Rep upi_set 1 None; lit "@"; plus upi_set; Eol]).
  change (seqs [Bol; exactly 10 [Digit]; lit "@"; plus [Word]; Eol])
    with (seqs [Bol; Rep [Digit] 10 (Some 10); lit "@"; plus [Word]; Eol]).
  rewrite !user_at_handle by exact T. unfold upi_shaped. split.
  - intros [(u & h & E & L & _ & FA & NE & FB)
           |(u & h & E & L & _ & FA & NE & FB)];
      exists u, h; (split; [exact E|]).
    + split; [destruct u; [cbn in L; lia|discriminate]|]. auto.
    + split; [destruct u; [cbn in L; lia|discriminate]|].
      split; [exact NE|]. split.
      * eapply forallb_weaken; [apply digit_in_upi_set|exact FA].
      * eapply forallb_weaken; [apply word_in_upi_set|exact FB].
  - intros (u & h & E & NU & NH & FA & FB). left. exists u, h.
    split; [exact E|]. split.
    + destruct u; [congruence|unfold len; cbn [List.length]; lia].
    + auto.
Qed.

Lemma contains_at_middle (u h : pystr) :
  contains_char "@" (u ++ "@"%char :: h) = true.
Proof.
  unfold contains_char. rewrite existsb_app. cbn [existsb].
  rewrite Ascii.eqb_refl. now rewrite orb_true_r.
Qed.

(** X3. [is_standalone_pii] on [upi_id] is true exactly when the trimmed
    string form of the value is user@handle with both parts non-empty and
    made of word characters, dots and hyphens; the second alternative of
    the pattern (ten digits, then a handle of word characters) adds
    nothing to the first. *)
Theorem upi_standalone_iff_user_at_handle (v : pyobj) :
  (is_standalone_pii "upi_id" v = true <-> upi_shaped (strip (str v)))
  /\ (matches (seqs [Bol; exactly 10 [Digit]; lit "@"; plus [Word]; Eol])
        (strip (str v)) = true ->
      matches (seqs [Bol; plus [Word; Chr "."; Chr "-"]; lit "@";
                     plus [Word; Chr "."; Chr "-"]; Eol])
        (strip (str v)) = true).
Proof.
  split.
  - rewrite standalone_upi. destruct (truthy v) eqn:T; cbn [negb].
    + apply upi_shape, strip_trimmed.
    + split; [discriminate|]. intros (u & h & E & _).
      apply falsy_no_at in T. rewrite E, contains_at_middle in T.
      discriminate.
  - change (seqs [Bol; plus [Word; Chr "."; Chr "-"]; lit "@";
                  plus [Word; Chr "."; Chr "-"]; Eol])
      with (seqs [Bol; Rep upi_set 1 None; lit "@"; plus upi_set; Eol]).
    change (seqs [Bol; exactly 10 [Digit]; lit "@"; plus [Word]; Eol])
      with (seqs [Bol; Rep [Digit] 10 (Some 10); lit "@"; plus [Word]; Eol]).
    rewrite !user_at_handle by apply strip_trimmed.
    intros (u & h & E & L & _ & FA & NE & FB). exists u, h.
    split; [exact E|]. split; [lia|]. split; [exact I|]. split.
    + eapply forallb_weaken; [apply digit_in_upi_set|exact FA].
    + split; [exact NE|].
      eapply forallb_weaken; [apply word_in_upi_set|exact FB].
Qed.

(* ===================================================================== *)
(** * Detection and masking agree on the standalone formats *)
(* ===================================================================== *)

Lemma strip_nonempty (s : pystr) : strip s <> [] -> s <> [].
Proof. intros H E. apply H. now subst. Qed.

(** [mask_value] only looks at the trimmed string. *)
Lemma mask_value_of_strip (key s : pystr) :
  strip s <> [] -> mask_value key (VStr s) = mask_value key (VStr (strip s)).
Proof.
  intros N. unfold mask_value. cbn [str truthy].
  rewrite strip_idem.
  destruct s as [|a s]; [now contradiction N|].
  destruct (strip (a :: s)); [now contradiction N|]. reflexivity.
Qed.

(** The branch of [mask_value] each field name selects. *)
Lemma mask_value_passport (s : pystr) :
  s <> [] ->
  mask_value "passport" (VStr s)
  = if len (strip s) =? 8
    then c0 <- str_getitem (strip s) 0 ;;
         if str_isalpha c0 && str_isdigit (slice_from 1 (strip s))
         then Ok (VStr (c0 ++ "XXX" ++ slice_last 4 (strip s)))
         else Ok (VStr generic_mask)
    else Ok (VStr generic_mask).
Proof. destruct s; [congruence|]. reflexivity. Qed.

Lemma mask_value_upi (s : pystr) :
  s <> [] ->
  mask_value "upi_id" (VStr s)
  = if contains_char "@" (strip s) && (len (split_on "@" (strip s)) =? 2)
    then user_part <- getitem (split_on "@" (strip s)) 0 ;;
         domain <- getitem (split_on "@" (strip s)) 1 ;;
         Ok (VStr ((if 3 <? len user_part
                    then slice_to 3 user_part ++ "XXX" else "XXX")
                   ++ "@" ++ domain))
    else Ok (VStr generic_mask).
Proof. destruct s; [congruence|]. reflexivity. Qed.

Lemma mask_value_email (s : pystr) :
  s <> [] ->
  mask_value "email" (VStr s)
  = if contains_char "@" (strip s) && (len (split_on "@" (strip s)) =? 2)
    then local <- getitem (split_on "@" (strip s)) 0 ;;
         domain <- getitem (split_on "@" (strip s)) 1 ;;
         Ok (VStr ((if 2 <? len local
                    then slice_to 2 local ++ "XXX" else "XXX")
                   ++ "@" ++ domain))
    else Ok (VStr generic_mask).
Proof. destruct s; [congruence|]. reflexivity. Qed.

Lemma mask_value_address (s : pystr) :
  s <> [] ->
  mask_value "address" (VStr s)
  = if 15 <? len (strip s)
    then Ok (VStr (slice_to 10 (strip s) ++ "... [REDACTED]"))
    else Ok (VStr generic_mask).
Proof. destruct s; [congruence|]. reflexivity. Qed.

(** ** split on a separator *)

Lemma split_on_none (sep : ascii) (s : pystr) :
  existsb (Ascii.eqb sep) s = false -> split_on sep s = [s].
Proof.
  induction s as [|c s IH]; [reflexivity|]. cbn [existsb split_on].
  intros H. apply orb_false_iff in H. destruct H as [H1 H2].
  rewrite Ascii.eqb_sym, H1, IH by exact H2. reflexivity.
Qed.

Lemma split_on_first (sep : ascii) (u h : pystr) :
  existsb (Ascii.eqb sep) u = false ->
  split_on sep (u ++ sep :: h) = u :: split_on sep h.
Proof.
  induction u as [|c u IH]; cbn [existsb app split_on].
  - intros _. now rewrite Ascii.eqb_refl.
  - intros H. apply orb_false_iff in H. destruct H as [H1 H2].
    rewrite Ascii.eqb_sym, H1, IH by exact H2. reflexivity.
Qed.

Lemma split_on_one (sep : ascii) (u h : pystr) :
  existsb (Ascii.eqb sep) u = false -> existsb (Ascii.eqb sep) h = false ->
  split_on sep (u ++ sep :: h) = [u; h].
Proof.
  intros U H. rewrite split_on_first by exact U.
  now rewrite split_on_none by exact H.
Qed.

Lemma upi_part_no_at (u : pystr) :
  forallb (mem upi_set) u = true -> existsb (Ascii.eqb "@") u = false.
Proof.
  induction u as [|c u IH]; [reflexivity|]. cbn [forallb existsb].
  intros H. apply andb_true_iff in H. destruct H as [H1 H2].
  now rewrite (upi_set_not_at _ H1), IH.
Qed.

Lemma mask_at_shape (u h : pystr) :
  existsb (Ascii.eqb "@") u = false -> existsb (Ascii.eqb "@") h = false ->
  trimmed (u ++ "@"%char :: h) ->
  mask_value "upi_id" (VStr (u ++ "@"%char :: h))
  = Ok (VStr (mask_user 3 u ++ "@"%char :: h))
  /\ mask_value "email" (VStr (u ++ "@"%char :: h))
     = Ok (VStr (mask_user 2 u ++ "@"%char :: h)).
Proof.
  intros U H T.
  assert (N : u ++ "@"%char :: h <> []) by (destruct u; discriminate).
  rewrite mask_value_upi, mask_value_email by exact N.
  rewrite (trimmed_strip _ T), contains_at_middle, (split_on_one _ _ _ U H).
  split; reflexivity.
Qed.

Lemma upper_is_alpha (c : ascii) : in_range 65 90 c = true -> isalpha c = true.
Proof. each_char c. Qed.

Lemma passport_mask_shape (c : ascii) (t : pystr) :
  in_range 65 90 c = true -> decimal_digits 7 t ->
  mask_value "passport" (VStr (c :: t)) = Ok (VStr (c :: "XXX" ++ skipn 3 t)).
Proof.
  intros U D.
  assert (T : strip (c :: t) = c :: t).
  { apply trimmed_strip, nospace_trimmed. intros x [<-|I].
    - apply alpha_not_space. now apply upper_is_alpha.
    - apply decimal_not_space. now apply D. }
  rewrite mask_value_passport by discriminate. rewrite T.
  pose proof (decimal_digits_isdigit _ _ D) as G. destruct D as [L _].
  replace (len (c :: t) =? 8) with true
    by (unfold len in *; cbn [List.length]; now rewrite L).
  change (str_getitem (c :: t) 0) with (Ok [c]). cbn [bind].
  change (slice_from 1 (c :: t)) with t. rewrite G.
  unfold str_isalpha. cbn [null negb forallb].
  rewrite (upper_is_alpha _ U). cbn [andb]. unfold slice_last.
  replace (len (c :: t) - 4) with 4
    by (unfold len in *; cbn [List.length]; lia).
  reflexivity.
Qed.

Lemma standalone_cases (key : pystr) (v : pyobj) :
  is_standalone_pii key v = true ->
  ((key = "phone" \/ key = "contact")
   /\ decimal_digits 10 (strip (str v)))
  \/ (key = "aadhar" /\ decimal_digits 12 (strip (str v)))
  \/ (key = "passport"
      /\ exists c t, strip (str v) = c :: t /\ in_range 65 90 c = true
                     /\ decimal_digits 7 t)
  \/ (key = "upi_id" /\ upi_shaped (strip (str v))).
Proof.
  intros H. pose proof (standalone_only_on_its_fields _ _ H) as K.
  unfold key_in, standalone_fields in K. cbn [existsb] in K.
  repeat (apply orb_true_iff in K; destruct K as [K|K]);
    try discriminate; apply str_eqb_eq in K; subst key.
  - left. split; [now left|]. apply (standalone_digits "phone"); auto.
  - left. split; [now right|]. apply (standalone_digits "contact"); auto.
  - right. left. split; [reflexivity|].
    rewrite standalone_aadhar in H.
    destruct (truthy v); [|discriminate]. cbn [negb] in H.
    unfold aadhar_pattern in H.
    rewrite digits_pattern in H by apply strip_trimmed.
    now apply decimal_digits_forallb.
  - right. right. left. split; [reflexivity|].
    rewrite standalone_passport in H.
    destruct (truthy v); [|discriminate]. cbn [negb] in H.
    now apply passport_shape in H; [|apply strip_trimmed].
  - right. right. right. split; [reflexivity|].
    rewrite standalone_upi in H.
    destruct (truthy v); [|discriminate]. cbn [negb] in H.
    now apply upi_shape in H; [|apply strip_trimmed].
Qed.

Lemma in_firstn {A} (n : nat) (l : list A) (x : A) :
  In x (firstn n l) -> In x l.
Proof.
  revert l. induction n as [|n IH]; intros [|a l]; cbn [firstn In]; try tauto.
  intros [H|H]; [now left|right; now apply IH].
Qed.

Lemma in_skipn {A} (n : nat) (l : list A) (x : A) :
  In x (skipn n l) -> In x l.
Proof.
  revert l. induction n as [|n IH]; intros [|a l]; cbn [skipn In]; try tauto.
  intros H. right. now apply IH.
Qed.

Lemma decimal_digits_nonempty (n : nat) (s : pystr) :
  decimal_digits (S n) s -> s <> [].
Proof. intros [L _] ->. discriminate. Qed.

Lemma upi_shaped_nonempty (s : pystr) : upi_shaped s -> s <> [].
Proof. intros (u & h & -> & _). destruct u; discriminate. Qed.

Lemma len_digit_mask (a b : nat) (x s : pystr) :
  len (firstn a s ++ x ++ skipn b s)
  = Nat.min a (len s) + len x + (len s - b).
Proof.
  unfold len. rewrite !length_app, length_firstn, length_skipn. lia.
Qed.

(** X4. Whenever [is_standalone_pii] accepts a field, [mask_value] on the
    string form of its value (what [process_record] stores) is the mask of
    that format and never the generic placeholder: first 2 and last 2
    digits for [phone] and [contact], first 4 and last 4 for [aadhar], the
    letter and the last 4 digits for [passport], at most 3 characters of
    the user and the whole handle for [upi_id]. *)
Theorem standalone_hit_gets_format_mask (key : pystr) (v : pyobj) :
  is_standalone_pii key v = true ->
  exists m,
    mask_value key (VStr (str v)) = Ok (VStr m)
    /\ m <> generic_mask
    /\ (((key = "phone" \/ key = "contact")
         /\ m = firstn 2 (strip (str v)) ++ "XXXXXX" ++ skipn 8 (strip (str v)))
        \/ (key = "aadhar"
            /\ m = firstn 4 (strip (str v)) ++ "XXXX"
                   ++ skipn 8 (strip (str v)))
        \/ (key = "passport"
            /\ m = firstn 1 (strip (str v)) ++ "XXX"
                   ++ skipn 4 (strip (str v)))
        \/ (key = "upi_id"
            /\ exists u h,
                 strip (str v) = u ++ "@"%char :: h
                 /\ m = mask_user 3 u ++ "@"%char :: h)).
Proof.
  intros H. apply standalone_cases in H.
  destruct H as [[K D]|[[-> D]|[[-> (c & t & E & U & D)]|[-> S]]]].
  - exists (firstn 2 (strip (str v)) ++ "XXXXXX" ++ skipn 8 (strip (str v))).
    rewrite mask_value_of_strip by (eapply decimal_digits_nonempty; eauto).
    split; [now apply mask_phone_shape|]. split; [|left; auto].
    intros Q. apply (f_equal len) in Q. rewrite len_digit_mask in Q.
    destruct D as [L _]. rewrite L in Q. cbn in Q. lia.
  - exists (firstn 4 (strip (str v)) ++ "XXXX" ++ skipn 8 (strip (str v))).
    rewrite mask_value_of_strip by (eapply decimal_digits_nonempty; eauto).
    split; [now apply mask_aadhar_shape|]. split; [|right; left; auto].
    intros Q. apply (f_equal len) in Q. rewrite len_digit_mask in Q.
    destruct D as [L _]. rewrite L in Q. cbn in Q. lia.
  - exists (firstn 1 (strip (str v)) ++ "XXX" ++ skipn 4 (strip (str v))).
    rewrite mask_value_of_strip by (rewrite E; discriminate).
    rewrite E. split; [now apply passport_mask_shape|].
    split; [|right; right; left; auto].
    intros Q. apply (f_equal len) in Q.
    rewrite <- E, len_digit_mask, E in Q.
    destruct D as [L _]. unfold len in *. cbn [List.length] in Q.
    rewrite L in Q. cbn in Q. lia.
  - pose proof S as (u & h & E & NU & NH & FU & FH).
    exists (mask_user 3 u ++ "@"%char :: h).
    rewrite mask_value_of_strip by (now apply upi_shaped_nonempty).
    split.
    { pattern (strip (str v)) at 1. rewrite E.
      apply mask_at_shape; try (now apply upi_part_no_at).
      rewrite <- E. apply strip_trimmed. }
    split; [|right; right; right; split; [reflexivity|now exists u, h]].
    intros Q. apply (f_equal (contains_char "@")) in Q.
    rewrite contains_at_middle in Q. discriminate.
Qed.

Lemma standalone_hit_gets_format_mask_witness :
  exists m,
    mask_value "passport" (VStr (str (VStr " A1234567 "))) = Ok (VStr m)
    /\ m <> generic_mask
    /\ ((("passport" = "phone" \/ "passport" = "contact")
         /\ m = firstn 2 (strip (str (VStr " A1234567 "))) ++ "XXXXXX"
                ++ skipn 8 (strip (str (VStr " A1234567 "))))
        \/ ("passport" = "aadhar"
            /\ m = firstn 4 (strip (str (VStr " A1234567 "))) ++ "XXXX"
                   ++ skipn 8 (strip (str (VStr " A1234567 "))))
        \/ ("passport" = "passport"
            /\ m = firstn 1 (strip (str (VStr " A1234567 "))) ++ "XXX"
                   ++ skipn 4 (strip (str (VStr " A1234567 "))))
        \/ ("passport" = "upi_id"
            /\ exists u h,
                 strip (str (VStr " A1234567 ")) = u ++ "@"%char :: h
                 /\ m = mask_user 3 u ++ "@"%char :: h)).
Proof.
  apply (standalone_hit_gets_format_mask "passport" (VStr " A1234567 ")).
  vm_compute. reflexivity.
Defined.

Example format_mask_examples :
  mask_value "passport" (VStr " A1234567 ") = Ok (VStr "AXXX4567")
  /\ mask_value "upi_id" (VStr "asha.rao@okbank") = Ok (VStr "ashXXX@okbank")
  /\ mask_value "upi_id" (VStr "ab@okbank") = Ok (VStr "XXX@okbank")
  /\ mask_value "contact" (VInt 9876543210) = Ok (VStr "98XXXXXX10")
  /\ is_standalone_pii "passport" (VStr "a1234567") = false
  /\ is_standalone_pii "passport" (VStr "A123456") = false
  /\ is_standalone_pii "upi_id" (VStr "asha rao@okbank") = false
  /\ is_standalone_pii "upi_id" (VStr "a@b@c") = false
  /\ is_standalone_pii "aadhar" (VInt 123456789012) = true.
Proof. repeat split; vm_compute; reflexivity. Qed.

Lemma ok_vstr_inj (a b : pystr) : Ok (VStr a) = Ok (VStr b) -> a = b.
Proof. intros H. now injection H. Qed.

Lemma digit_mask_chars (a b : nat) (x vs : pystr) (n : nat) :
  decimal_digits n vs ->
  (forall c, In c x -> isspace c = false) ->
  forall c, In c (firstn a vs ++ x ++ skipn b vs) -> isspace c = false.
Proof.
  intros [_ D] X c I.
  apply in_app_or in I. destruct I as [I|I].
  - apply decimal_not_space, D. eapply in_firstn; eauto.
  - apply in_app_or in I. destruct I as [I|I]; [now apply X|].
    apply decimal_not_space, D. eapply in_skipn; eauto.
Qed.

Lemma only_X (k : nat) (c : ascii) :
  In c (repeat "X"%char k) -> isspace c = false.
Proof. intros H. apply repeat_spec in H. now subst. Qed.

Lemma with_X_not_digits (n : nat) (m : pystr) :
  In "X"%char m -> ~ decimal_digits n m.
Proof. intros I [_ D]. specialize (D _ I). discriminate. Qed.

Lemma digit_mask_not_standalone (key : pystr) (a b : nat) (vs : pystr) (n k : nat) :
  key_in key ["phone"; "contact"] = true \/ key = "aadhar" ->
  decimal_digits n vs ->
  is_standalone_pii key
    (VStr (firstn a vs ++ repeat "X"%char (S k) ++ skipn b vs)) = false.
Proof.
  intros K D.
  set (m := firstn a vs ++ repeat "X"%char (S k) ++ skipn b vs).
  assert (T : strip m = m).
  { apply trimmed_strip, nospace_trimmed.
    apply (digit_mask_chars a b _ vs n D). apply only_X. }
  assert (I : In "X"%char m).
  { apply in_or_app. right. apply in_or_app. left. now left. }
  destruct (is_standalone_pii key (VStr m)) eqn:S; [exfalso|reflexivity].
  destruct K as [K| ->].
  - apply (standalone_digits key (VStr m) K) in S. cbn [str] in S.
    rewrite T in S. now apply with_X_not_digits in S.
  - rewrite standalone_aadhar in S.
    destruct (truthy (VStr m)); [|discriminate]. cbn [negb str] in S.
    unfold aadhar_pattern in S.
    rewrite digits_pattern in S by apply strip_trimmed.
    apply decimal_digits_forallb in S. rewrite T in S.
    now apply with_X_not_digits in S.
Qed.

Lemma passport_mask_again (c : ascii) (t : pystr) :
  in_range 65 90 c = true -> decimal_digits 7 t ->
  is_standalone_pii "passport" (VStr (c :: "XXX" ++ skipn 3 t)) = false
  /\ mask_value "passport" (VStr (c :: "XXX" ++ skipn 3 t))
     = Ok (VStr generic_mask).
Proof.
  intros U D. set (m := c :: "XXX" ++ skipn 3 t).
  assert (T : strip m = m).
  { apply trimmed_strip, nospace_trimmed. intros x [<-|I].
    - apply alpha_not_space. now apply upper_is_alpha.
    - apply in_app_or in I. destruct I as [I|I].
      + cbn [In] in I. repeat (destruct I as [<-|I]; [reflexivity|]).
        destruct I.
      + apply decimal_not_space. destruct D as [_ D]. apply D.
        eapply in_skipn; eauto. }
  split.
  - destruct (is_standalone_pii "passport" (VStr m)) eqn:S; [exfalso|reflexivity].
    rewrite standalone_passport in S.
    destruct (truthy (VStr m)); [|discriminate]. cbn [negb str] in S.
    apply passport_shape in S; [|apply strip_trimmed].
    rewrite T in S. destruct S as (c' & t' & E & _ & [_ D']).
    unfold m in E. injection E as _ <-.
    specialize (D' "X"%char (or_introl eq_refl)). discriminate.
  - rewrite mask_value_passport by discriminate. rewrite T.
    destruct D as [L _].
    replace (len m =? 8) with true.
    2:{ unfold m, len in *. cbn [List.length app].
        rewrite length_skipn, L. reflexivity. }
    change (str_getitem m 0) with (Ok [c]). cbn [bind].
    change (slice_from 1 m) with ("XXX" ++ skipn 3 t).
    rewrite (str_isdigit_with "X"%char); [|now left|reflexivity].
    now rewrite andb_false_r.
Qed.

(** X5. Once a [phone], [contact], [aadhar] or [passport] value has been
    masked after a standalone hit, the masked value is no longer standalone
    PII, and masking it again gives the generic placeholder. *)
Theorem masked_number_is_not_detected_again (key : pystr) (v : pyobj) (m : pystr) :
  key <> "upi_id" ->
  is_standalone_pii key v = true ->
  mask_value key (VStr (str v)) = Ok (VStr m) ->
  is_standalone_pii key (VStr m) = false
  /\ mask_value key (VStr m) = Ok (VStr generic_mask).
Proof.
  intros NU H M. apply standalone_cases in H.
  destruct H as [[K D]|[[-> D]|[[-> (c & t & E & U & D)]|[-> _]]]];
    [| | |congruence].
  - rewrite mask_value_of_strip in M by (eapply decimal_digits_nonempty; eauto).
    rewrite (mask_phone_shape _ _ K D) in M. apply ok_vstr_inj in M. subst m.
    split; [|now apply remask_phone].
    apply (digit_mask_not_standalone key 2 8 _ 10 5); [|exact D].
    left. destruct K as [-> | ->]; reflexivity.
  - rewrite mask_value_of_strip in M by (eapply decimal_digits_nonempty; eauto).
    rewrite (mask_aadhar_shape _ D) in M. apply ok_vstr_inj in M. subst m.
    split; [|now apply remask_aadhar].
    apply (digit_mask_not_standalone "aadhar" 4 8 _ 12 3); [now right|exact D].
  - rewrite mask_value_of_strip in M by (rewrite E; discriminate).
    rewrite E, (passport_mask_shape _ _ U D) in M.
    apply ok_vstr_inj in M. subst m. now apply passport_mask_again.
Qed.

Lemma masked_number_is_not_detected_again_witness :
  is_standalone_pii "passport" (VStr "AXXX4567") = false
  /\ mask_value "passport" (VStr "AXXX4567") = Ok (VStr generic_mask).
Proof.
  apply (masked_number_is_not_detected_again
           "passport" (VStr "A1234567") "AXXX4567").
  - discriminate.
  - vm_compute. reflexivity.
  - vm_compute. reflexivity.
Defined.

Lemma mask_user_upi (u : pystr) :
  forallb (mem upi_set) u = true ->
  mask_user 3 u <> [] /\ forallb (mem upi_set) (mask_user 3 u) = true.
Proof.
  intros F. unfold mask_user. destruct (3 <? len u).
  - split; [destruct (firstn 3 u); discriminate|].
    rewrite forallb_app. apply andb_true_iff. split; [|reflexivity].
    rewrite forallb_forall in *. intros c I. apply F.
    eapply in_firstn; eauto.
  - split; [discriminate|reflexivity].
Qed.

Lemma mask_user_long (n : nat) (u : pystr) :
  n < len u -> mask_user n (mask_user n u) = mask_user n u.
Proof.
  intros L.
  assert (E : mask_user n u = firstn n u ++ "XXX").
  { unfold mask_user. apply Nat.ltb_lt in L. now rewrite L. }
  rewrite E. unfold mask_user.
  assert (F : len (firstn n u) = n).
  { unfold len in *. rewrite length_firstn. lia. }
  rewrite len_app, F. cbn [len List.length].
  replace (n <? n + 3) with true by (symmetry; apply Nat.ltb_lt; lia).
  f_equal. clear L E. revert F. generalize (firstn n u). intros w <-.
  apply firstn_exact.
Qed.

Lemma mask_user_idem (u : pystr) : mask_user 3 (mask_user 3 u) = mask_user 3 u.
Proof.
  destruct (3 <? len u) eqn:L.
  - apply mask_user_long. now apply Nat.ltb_lt.
  - assert (E : mask_user 3 u = "XXX") by (unfold mask_user; now rewrite L).
    rewrite E. reflexivity.
Qed.

(** X6. A [upi_id] value that is standalone PII is masked to a value that
    is again standalone PII, and masking that value again leaves it as it
    is: on [upi_id] the mask is idempotent. *)
Theorem upi_mask_is_idempotent (v : pyobj) (m : pystr) :
  is_standalone_pii "upi_id" v = true ->
  mask_value "upi_id" (VStr (str v)) = Ok (VStr m) ->
  is_standalone_pii "upi_id" (VStr m) = true
  /\ mask_value "upi_id" (VStr m) = Ok (VStr m).
Proof.
  intros H M. apply standalone_cases in H.
  destruct H as [[[K|K] _]|[[K _]|[[K _]|[_ S]]]]; try discriminate K.
  pose proof S as (u & h & E & NU & NH & FU & FH).
  rewrite mask_value_of_strip in M by (now apply upi_shaped_nonempty).
  assert (T : trimmed (u ++ "@"%char :: h)) by (rewrite <- E; apply strip_trimmed).
  pose proof (upi_part_no_at _ FU) as AU. pose proof (upi_part_no_at _ FH) as AH.
  rewrite E, (proj1 (mask_at_shape u h AU AH T)) in M.
  apply ok_vstr_inj in M. subst m.
  destruct (mask_user_upi u FU) as [NM FM].
  assert (T' : trimmed (mask_user 3 u ++ "@"%char :: h)).
  { apply nospace_trimmed. intros c I. apply in_app_or in I.
    rewrite forallb_forall in FM, FH.
    destruct I as [I|[<-|I]];
      [apply upi_set_not_space; auto|reflexivity|apply upi_set_not_space; auto]. }
  split.
  - rewrite standalone_upi. cbn [str].
    replace (truthy (VStr (mask_user 3 u ++ "@"%char :: h))) with true
      by (destruct (mask_user 3 u); reflexivity).
    cbn [negb]. rewrite (trimmed_strip _ T').
    apply upi_shape; [exact T'|]. now exists (mask_user 3 u), h.
  - rewrite (proj1 (mask_at_shape _ h (upi_part_no_at _ FM) AH T')).
    now rewrite mask_user_idem.
Qed.

Lemma upi_mask_is_idempotent_witness :
  is_standalone_pii "upi_id" (VStr "ashXXX@okbank") = true
  /\ mask_value "upi_id" (VStr "ashXXX@okbank") = Ok (VStr "ashXXX@okbank").
Proof.
  apply (upi_mask_is_idempotent (VStr "asha.rao@okbank") "ashXXX@okbank");
    vm_compute; reflexivity.
Defined.

(* ===================================================================== *)
(** * The email and address masks *)
(* ===================================================================== *)

Lemma split_on_len (sep : ascii) (s : pystr) :
  len (split_on sep s) = S (len (filter (Ascii.eqb sep) s)).
Proof.
  unfold len. induction s as [|c s IH]; [reflexivity|].
  cbn [split_on filter]. rewrite (Ascii.eqb_sym sep c).
  destruct (Ascii.eqb c sep).
  - cbn [List.length]. now rewrite IH.
  - destruct (split_on sep s) as [|w ws]; [discriminate IH|exact IH].
Qed.

Lemma contains_char_count (c : ascii) (s : pystr) :
  contains_char c s = negb (len (filter (Ascii.eqb c) s) =? 0).
Proof.
  unfold contains_char, len. induction s as [|a s IH]; [reflexivity|].
  cbn [existsb filter]. destruct (Ascii.eqb c a); [reflexivity|exact IH].
Qed.

Lemma head_of_trimmed (s : pystr) (c : ascii) (t : pystr) :
  trimmed s -> s = c :: t -> isspace c = false.
Proof. intros [H _] ->. now apply lstrip_fix in H. Qed.

(** Only the part after the last [@] decides whether the end is trimmed. *)
Lemma trimmed_other_user (a a' d : pystr) :
  trimmed (a ++ "@"%char :: d) ->
  match a' with [] => True | c :: _ => isspace c = false end ->
  trimmed (a' ++ "@"%char :: d).
Proof.
  intros [_ T] H. split; apply lstrip_fix.
  - destruct a' as [|c a']; [reflexivity|exact H].
  - apply lstrip_fix in T. rewrite rev_app_distr in *.
    cbn [rev] in *. rewrite <- app_assoc in *.
    destruct (rev d) as [|x r]; [reflexivity|exact T].
Qed.

Lemma mask_user_head (n : nat) (a : pystr) :
  match a with [] => True | c :: _ => isspace c = false end ->
  match mask_user (S n) a with [] => True | c :: _ => isspace c = false end.
Proof.
  intros H. unfold mask_user. destruct (S n <? len a); [|reflexivity].
  destruct a as [|c a]; [reflexivity|exact H].
Qed.

(** X7. On [email], a value whose trimmed form is local@domain with a
    single [@] is masked to at most the first 2 characters of the local
    part, then XXX, and the domain is kept verbatim; a non-empty value
    with no [@] or with more than one gets the generic placeholder. When
    the local part has more than 2 characters, masking the masked value
    again changes nothing. *)
Theorem email_mask_keeps_domain (s : pystr) :
  (forall local domain,
      strip s = local ++ "@"%char :: domain ->
      contains_char "@" local = false -> contains_char "@" domain = false ->
      mask_value "email" (VStr s)
      = Ok (VStr (mask_user 2 local ++ "@"%char :: domain))
      /\ (2 < len local ->
          mask_value "email" (VStr (mask_user 2 local ++ "@"%char :: domain))
          = Ok (VStr (mask_user 2 local ++ "@"%char :: domain))))
  /\ (s <> [] -> len (filter (Ascii.eqb "@") (strip s)) <> 1 ->
      mask_value "email" (VStr s) = Ok (VStr generic_mask)).
Proof.
  split.
  - intros local domain E NL ND.
    assert (T : trimmed (local ++ "@"%char :: domain))
      by (rewrite <- E; apply strip_trimmed).
    split.
    + rewrite mask_value_of_strip by (rewrite E; destruct local; discriminate).
      rewrite E. now apply mask_at_shape.
    + intros L.
      assert (N' : contains_char "@" (mask_user 2 local) = false).
      { unfold mask_user. apply Nat.ltb_lt in L. rewrite L.
        unfold contains_char in *. rewrite existsb_app.
        apply orb_false_iff. split; [|reflexivity].
        destruct (existsb (Ascii.eqb "@") (firstn 2 local)) eqn:X;
          [|reflexivity].
        apply existsb_exists in X. destruct X as (c & I & Q).
        apply in_firstn in I.
        assert (Y : existsb (Ascii.eqb "@") local = true)
          by (apply existsb_exists; eauto).
        congruence. }
      assert (T' : trimmed (mask_user 2 local ++ "@"%char :: domain)).
      { apply (trimmed_other_user local); [exact T|].
        apply mask_user_head.
        destruct local as [|c l]; [exact I|].
        eapply head_of_trimmed; [exact T|reflexivity]. }
      rewrite (proj2 (mask_at_shape _ _ N' ND T')).
      now rewrite mask_user_long.
  - intros N C. rewrite mask_value_email by exact N.
    rewrite contains_char_count, split_on_len.
    destruct (len (filter (Ascii.eqb "@") (strip s))) as [|[|k]];
      [reflexivity|congruence|reflexivity].
Qed.

Lemma email_mask_keeps_domain_witness :
  mask_value "email" (VStr " asha.rao@example.com")
  = Ok (VStr (mask_user 2 "asha.rao" ++ "@"%char :: "example.com"))
  /\ (2 < len "asha.rao" ->
      mask_value "email"
        (VStr (mask_user 2 "asha.rao" ++ "@"%char :: "example.com"))
      = Ok (VStr (mask_user 2 "asha.rao" ++ "@"%char :: "example.com"))).
Proof.
  apply (proj1 (email_mask_keeps_domain " asha.rao@example.com")
           "asha.rao" "example.com"); reflexivity.
Defined.

Example email_mask_examples :
  mask_value "email" (VStr " asha.rao@example.com")
  = Ok (VStr "asXXX@example.com")
  /\ mask_value "email" (VStr "ab@example.com") = Ok (VStr "XXX@example.com")
  /\ mask_value "email" (VStr "XXX@example.com")
     = Ok (VStr "XXXXX@example.com")
  /\ mask_value "email" (VStr "a@b@c") = Ok (VStr generic_mask)
  /\ mask_value "email" (VStr "no-at-sign") = Ok (VStr generic_mask)
  /\ mask_value "email" (VStr "@") = Ok (VStr "XXX@").
Proof. repeat split; vm_compute; reflexivity. Qed.

Lemma firstn_of_len {A} (n : nat) (l1 l2 : list A) :
  len l1 = n -> firstn n (l1 ++ l2) = l1.
Proof. intros <-. apply firstn_exact. Qed.

Lemma address_mask_trimmed (vs : pystr) :
  trimmed vs -> 15 < len vs -> trimmed (firstn 10 vs ++ "... [REDACTED]").
Proof.
  intros T L. split; apply lstrip_fix.
  - destruct vs as [|c vs]; [cbn in L; lia|].
    cbn [firstn app]. eapply head_of_trimmed; [exact T|reflexivity].
  - rewrite rev_app_distr. reflexivity.
Qed.

(** X8. On [address], a non-empty value whose trimmed form has more than 15
    characters is masked to its first 10 characters followed by the marker
    ... [REDACTED]: the result always has 24 characters, and masking it
    again leaves it unchanged. A trimmed form of 15 characters or fewer
    gets the generic placeholder. *)
Theorem address_mask_is_idempotent (s : pystr) :
  s <> [] ->
  (15 < len (strip s) ->
   mask_value "address" (VStr s)
   = Ok (VStr (firstn 10 (strip s) ++ "... [REDACTED]"))
   /\ len (firstn 10 (strip s) ++ "... [REDACTED]") = 24
   /\ mask_value "address" (VStr (firstn 10 (strip s) ++ "... [REDACTED]"))
      = Ok (VStr (firstn 10 (strip s) ++ "... [REDACTED]")))
  /\ (len (strip s) <= 15 ->
      mask_value "address" (VStr s) = Ok (VStr generic_mask)).
Proof.
  intros N. split.
  - intros L.
    assert (F : len (firstn 10 (strip s)) = 10).
    { unfold len in *. rewrite length_firstn. lia. }
    assert (L24 : len (firstn 10 (strip s) ++ "... [REDACTED]") = 24).
    { rewrite len_app, F. reflexivity. }
    split; [|split; [exact L24|]].
    + rewrite mask_value_address by exact N.
      apply Nat.ltb_lt in L. now rewrite L.
    + rewrite mask_value_address
        by (destruct (firstn 10 (strip s)); discriminate).
      rewrite (trimmed_strip _ (address_mask_trimmed _ (strip_trimmed s) L)).
      rewrite L24. cbn [Nat.ltb Nat.leb]. unfold slice_to.
      now rewrite (firstn_of_len 10 _ _ F).
  - intros L. rewrite mask_value_address by exact N.
    replace (15 <? len (strip s)) with false
      by (symmetry; apply Nat.ltb_ge; exact L).
    reflexivity.
Qed.

Lemma address_mask_is_idempotent_witness :
  (15 < len (strip "221B, Baker Street, Near Park, 560001") ->
   mask_value "address" (VStr "221B, Baker Street, Near Park, 560001")
   = Ok (VStr (firstn 10 (strip "221B, Baker Street, Near Park, 560001")
               ++ "... [REDACTED]"))
   /\ len (firstn 10 (strip "221B, Baker Street, Near Park, 560001")
           ++ "... [REDACTED]") = 24
   /\ mask_value "address"
        (VStr (firstn 10 (strip "221B, Baker Street, Near Park, 560001")
               ++ "... [REDACTED]"))
      = Ok (VStr (firstn 10 (strip "221B, Baker Street, Near Park, 560001")
                  ++ "... [REDACTED]")))
  /\ (len (strip "221B, Baker Street, Near Park, 560001") <= 15 ->
      mask_value "address" (VStr "221B, Baker Street, Near Park, 560001")
      = Ok (VStr generic_mask)).
Proof.
  apply (address_mask_is_idempotent "221B, Baker Street, Near Park, 560001").
  discriminate.
Defined.

Example address_mask_examples :
  mask_value "address" (VStr "221B, Baker Street, Near Park, 560001")
  = Ok (VStr "221B, Bake... [REDACTED]")
  /\ mask_value "address" (VStr "12 MG Road Pune") = Ok (VStr generic_mask)
  /\ mask_value "address" (VStr "12 MG Road, Pune") 
     = Ok (VStr "12 MG Road... [REDACTED]").
Proof. repeat split; vm_compute; reflexivity. Qed.

(* ===================================================================== *)
(** * The name mask and the placeholder under repeated masking *)
(* ===================================================================== *)

Lemma split_cons (c : ascii) (t : pystr) :
  split (c :: t)
  = if isspace c then split t
    else match t with
         | [] => [[c]]
         | d :: _ =>
             if isspace d then [c] :: split t
             else match split t with
                  | w :: ws => (c :: w) :: ws
                  | [] => [[c]]
                  end
         end.
Proof. destruct t; reflexivity. Qed.

(** The tokens of [split] are non-empty and free of whitespace. *)
Lemma split_tokens (s : pystr) :
  forall w, In w (split s) ->
            w <> [] /\ forall c, In c w -> isspace c = false.
Proof.
  induction s as [|c t IH]; intros w; [intros []|].
  rewrite split_cons. destruct (isspace c) eqn:C; [apply IH|].
  assert (One : w = [c] -> w <> [] /\ forall x, In x w -> isspace x = false).
  { intros ->. split; [discriminate|]. intros x [<-|[]]. exact C. }
  destruct t as [|d t']; [intros [<-|[]]; now apply One|].
  destruct (isspace d).
  - intros [<-|I]; [now apply One|now apply IH].
  - destruct (split (d :: t')) as [|w0 ws]; [intros [<-|[]]; now apply One|].
    intros [<-|I].
    + split; [discriminate|]. intros x [<-|I]; [exact C|].
      apply (IH w0); [now left|exact I].
    + apply IH. now right.
Qed.

Lemma masked_name_tokens (c1 c2 : ascii) :
  isspace c1 = false -> isspace c2 = false ->
  strip (c1 :: "XXX" ++ " " ++ c2 :: "XXXX") = c1 :: "XXX" ++ " " ++ c2 :: "XXXX"
  /\ split (c1 :: "XXX" ++ " " ++ c2 :: "XXXX") = [c1 :: "XXX"; c2 :: "XXXX"].
Proof.
  intros N1 N2. cbn [app]. split.
  - apply trimmed_strip. split; apply lstrip_fix; [exact N1|reflexivity].
  - rewrite (split_token_then "XXX" " " (c2 :: "XXXX"));
      [|intros c I; cbn [In] in I;
        repeat (destruct I as [<-|I]; [reflexivity|]); destruct I
       |reflexivity|exact N1].
    change (split (" "%char :: c2 :: "XXXX")) with (split (c2 :: "XXXX")).
    rewrite split_token; [reflexivity|discriminate|].
    intros c I. cbn [In] in I. destruct I as [<-|I]; [exact N2|].
    repeat (destruct I as [<-|I]; [reflexivity|]). destruct I.
Qed.

Lemma name_mask_value (s : pystr) (c1 c2 : ascii) (t1 t2 : pystr)
    (rest : list pystr) :
  split (strip s) = (c1 :: t1) :: rest -> rest <> [] ->
  last ((c1 :: t1) :: rest) [] = c2 :: t2 ->
  mask_value "name" (VStr s) = Ok (VStr (c1 :: "XXX" ++ " " ++ c2 :: "XXXX")).
Proof.
  intros P R E.
  assert (T : truthy (VStr s) = true).
  { destruct s; [discriminate P|reflexivity]. }
  unfold mask_value. rewrite T. cbn [negb str]. rewrite P.
  rewrite getitem_last. unfold pystr in *.
  rewrite (last_default (c1 :: t1) (c1 :: t1) [] rest), E.
  destruct rest as [|second rest]; [congruence|]. reflexivity.
Qed.

(** X9. On [name], a value with at least 2 whitespace-separated tokens is
    masked to exactly 10 characters (one character and XXX, a space, one
    character and XXXX, whatever lies between the first and the last token
    being dropped), and masking the masked value again leaves it
    unchanged. *)
Theorem name_mask_is_idempotent (s m : pystr) :
  2 <= len (split (strip s)) ->
  mask_value "name" (VStr s) = Ok (VStr m) ->
  len m = 10 /\ mask_value "name" (VStr m) = Ok (VStr m).
Proof.
  intros L M. unfold pystr in *.
  destruct (split (strip s)) as [|first rest] eqn:P; [cbn in L; lia|].
  assert (R : rest <> []) by (destruct rest; [cbn in L; lia|discriminate]).
  pose proof (split_tokens (strip s)) as ST. unfold pystr in ST. rewrite P in ST.
  destruct (ST first (or_introl eq_refl)) as [N1 S1].
  destruct (ST _ (last_in first [] rest)) as [N2 S2].
  destruct first as [|c1 t1]; [now contradiction N1|].
  destruct (last ((c1 :: t1) :: rest) []) as [|c2 t2] eqn:E;
    [now contradiction N2|].
  rewrite (name_mask_value s c1 c2 t1 t2 rest P R E) in M.
  apply ok_vstr_inj in M. subst m. split; [reflexivity|].
  destruct (masked_name_tokens c1 c2) as [T Q];
    [apply S1; now left|apply S2; unfold pystr; rewrite E; now left|].
  apply (name_mask_value _ c1 c2 "XXX" "XXXX" [c2 :: "XXXX"]).
  - now rewrite T, Q.
  - discriminate.
  - reflexivity.
Qed.

Lemma name_mask_is_idempotent_witness :
  len "OXXX SXXXX" = 10
  /\ mask_value "name" (VStr "OXXX SXXXX") = Ok (VStr "OXXX SXXXX").
Proof.
  apply (name_mask_is_idempotent "  O'Brien van der Smith-Jones ");
    vm_compute; [lia|reflexivity].
Defined.

(** X10. Whatever the field name, [mask_value] maps the generic placeholder
    to itself: once a value has been replaced by the placeholder, further
    masking never changes it. *)
Theorem placeholder_is_a_fixed_point (key : pystr) :
  mask_value key (VStr generic_mask) = Ok (VStr generic_mask).
Proof.
  unfold mask_value.
  change (strip (str (VStr generic_mask))) with generic_mask.
  change (negb (truthy (VStr generic_mask))) with false.
  destruct (key_in key ["phone"; "contact"]);
    destruct (str_eqb key "aadhar"); destruct (str_eqb key "email");
    destruct (str_eqb key "name"); destruct (str_eqb key "address");
    destruct (str_eqb key "upi_id"); destruct (str_eqb key "passport");
    reflexivity.
Qed.

(* ===================================================================== *)
(** * What the record processor does to a record as a whole *)
(* ===================================================================== *)

(** X11. For a record, the PII flag returned by [process_record] is true
    exactly when some field is standalone PII or the combinatorial detector
    reports PII; and when the flag is false the returned record is the
    input record, unchanged. *)
Theorem flag_false_means_unchanged (record out : dict) (is_pii : bool) :
  wf_dict record ->
  process_record record = Ok (out, is_pii) ->
  (is_pii = true <->
   (exists k v, In (k, v) record /\ is_standalone_pii k v = true)
   \/ (exists found_pii,
         detect_combinatorial_pii record = Ok (true, found_pii)))
  /\ (is_pii = false -> out = record).
Proof.
  intros W. rewrite process_record_spec by exact W. rewrite detect_spec.
  destruct (existsb hit record) eqn:H.
  - intros Q. injection Q as <- <-. split; [|discriminate].
    split; [|reflexivity]. intros _. left. now apply existsb_hit.
  - assert (NH : ~ exists k v, In (k, v) record /\ is_standalone_pii k v = true).
    { intros X. apply existsb_hit in X. congruence. }
    rewrite (first_pass_all_miss _ H).
    destruct (2 <=? len (found_of record)); intros Q; injection Q as <- <-.
    + split; [|discriminate]. split; [|reflexivity]. intros _. right. eauto.
    + split; [|reflexivity]. split; [discriminate|].
      intros [X|[f X]]; [contradiction|discriminate].
Qed.

Lemma wf_pune : wf_dict [("city", VStr "Pune"); ("name", VStr "Asha Rao")].
Proof.
  unfold wf_dict. cbn [keys map fst].
  repeat constructor; cbn [In]; intuition discriminate.
Defined.

Lemma flag_false_means_unchanged_witness :
  (false = true <->
   (exists k v, In (k, v) [("city", VStr "Pune"); ("name", VStr "Asha Rao")]
                /\ is_standalone_pii k v = true)
   \/ (exists found_pii,
         detect_combinatorial_pii
           [("city", VStr "Pune"); ("name", VStr "Asha Rao")]
         = Ok (true, found_pii)))
  /\ (false = false ->
      [("city", VStr "Pune"); ("name", VStr "Asha Rao")]
      = [("city", VStr "Pune"); ("name", VStr "Asha Rao")]).
Proof.
  apply (flag_false_means_unchanged
           [("city", VStr "Pune"); ("name", VStr "Asha Rao")]
           [("city", VStr "Pune"); ("name", VStr "Asha Rao")] false wf_pune).
  vm_compute. reflexivity.
Defined.

Lemma dict_find_cons (k k0 : pystr) (v0 : pyobj) (d : dict) :
  dict_find k ((k0, v0) :: d)
  = if str_eqb k0 k then Some v0 else dict_find k d.
Proof.
  unfold dict_find. cbn [find fst]. destruct (str_eqb k0 k); reflexivity.
Qed.

Lemma first_pass_derived (record : dict) :
  Forall2 derived_from record (map first_pass record).
Proof.
  induction record as [|[k v] record IH]; [constructor|].
  cbn [map]. constructor; [|exact IH].
  unfold derived_from, first_pass, hit. cbn [fst snd].
  split; [reflexivity|].
  destruct (truthy v) eqn:T; cbn [andb]; [|now left].
  destruct (is_standalone_pii k v); [|now left].
  right. split; [reflexivity|apply mask_value_masked].
Qed.

Lemma mask_field_derived (record rd : dict) (field : pystr) :
  Forall2 derived_from record rd ->
  Forall2 derived_from record (mask_field record rd field).
Proof.
  intros F. unfold mask_field.
  destruct (dict_find field record) as [v|] eqn:D; [|exact F].
  destruct (truthy v) eqn:T; [|exact F].
  revert D. induction F as [|[k0 v0] [k0' x] rec' rd' R F IH]; intros D;
    [discriminate|].
  destruct R as [K R]. cbn [fst snd] in K, R. subst k0'.
  rewrite dict_find_cons in D. cbn [dict_setitem].
  destruct (str_eqb k0 field) eqn:E.
  - apply str_eqb_eq in E. subst k0. injection D as ->.
    constructor; [|exact F]. split; [reflexivity|]. right.
    split; [exact T|apply mask_value_masked].
  - constructor; [|now apply IH]. split; [reflexivity|exact R].
Qed.

Lemma second_pass_derived (record : dict) (found_fields : list pystr) :
  forall rd,
    Forall2 derived_from record rd ->
    Forall2 derived_from record (second_pass record found_fields rd).
Proof.
  induction found_fields as [|field rest IH]; intros rd F; [exact F|].
  rewrite second_pass_cons. apply IH. now apply mask_field_derived.
Qed.

(** X12. Field by field, in order, the record returned by [process_record]
    has the name of the input field, and as value either the input value
    or, when the input value is non-empty, the result of [mask_value] for
    that name on the string form of that very value: an empty value is
    never replaced, and no value is built from another field. *)
Theorem output_fields_derive_from_their_own_input
    (record out : dict) (is_pii : bool) :
  wf_dict record ->
  process_record record = Ok (out, is_pii) ->
  Forall2 derived_from record out.
Proof.
  intros W. rewrite process_record_spec by exact W.
  destruct (existsb hit record).
  - intros Q. injection Q as <- _. apply first_pass_derived.
  - destruct (2 <=? len (found_of record)); intros Q; injection Q as <- _.
    + apply second_pass_derived, first_pass_derived.
    + apply first_pass_derived.
Qed.

Lemma wf_mixed :
  wf_dict [("name", VStr "Asha Rao"); ("note", VStr "");
           ("email", VStr "asha@example.com")].
Proof.
  unfold wf_dict. cbn [keys map fst].
  repeat constructor; cbn [In]; intuition discriminate.
Defined.

Lemma output_fields_derive_from_their_own_input_witness :
  Forall2 derived_from
    [("name", VStr "Asha Rao"); ("note", VStr "");
     ("email", VStr "asha@example.com")]
    [("name", VStr "AXXX RXXXX"); ("note", VStr "");
     ("email", VStr "asXXX@example.com")].
Proof.
  apply (output_fields_derive_from_their_own_input _ _ true wf_mixed).
  vm_compute. reflexivity.
Defined.

Lemma found_subseq (data items : dict) :
  subseq (flat_map (fun kv => step_keys data (fst kv) (snd kv)) items)
    (keys items).
Proof.
  induction items as [|[k v] items IH]; [constructor|].
  cbn [flat_map keys map fst snd].
  destruct (step_keys_single data k v) as [-> | ->]; cbn [app].
  - now apply subseq_skip.
  - now apply subseq_keep.
Qed.

(** X13. The list of field names reported by [detect_combinatorial_pii]
    keeps the order of the record: it is obtained from the record's keys by
    leaving some out; and for a record (no key twice) it names no field
    twice. *)
Theorem report_follows_record_order (data : dict) :
  exists has_combinatorial found_pii,
    detect_combinatorial_pii data = Ok (has_combinatorial, found_pii)
    /\ subseq found_pii (keys data)
    /\ (wf_dict data -> NoDup found_pii).
Proof.
  eexists _, _. split; [apply detect_spec|]. split.
  - apply found_subseq.
  - apply found_nodup.
Qed.

(* ===================================================================== *)
(** * The identity link is tested on the untrimmed email *)
(* ===================================================================== *)

Lemma email_local_not_space (c : ascii) :
  mem email_local c = true -> isspace c = false.
Proof. each_char c. Qed.

Lemma email_starts_with_local (s : pystr) :
  matches email_pattern s = true ->
  exists c t, s = c :: t /\ mem email_local c = true.
Proof.
  intros H. apply matches_span in H.
  cbn [email_pattern seqs span plus] in H.
  destruct H as (j & m & [_ ->] & m1 & (k & _ & K & R & _) & _).
  change (skipn 0 s) with s in R.
  destruct s as [|c t]; [cbn in R; lia|].
  exists c, t. split; [reflexivity|].
  cbn [run] in R. destruct (mem email_local c); [reflexivity|lia].
Qed.

(** X14. A [device_id] or [ip_address] field is linked to the [email] field
    through the email's string form as it stands, not trimmed: when that
    string starts with whitespace and the record has no full-name-shaped
    [name], neither [device_id] nor [ip_address] is ever reported, although
    the [email] field itself is tested on its trimmed form. *)
Theorem untrimmed_email_links_no_device (data : dict) (v : pyobj)
    (c : ascii) (t : pystr) :
  dict_getitem data "email" = Ok v ->
  str v = c :: t -> isspace c = true ->
  (forall w, dict_getitem data "name" = Ok w ->
             is_full_name (VStr (str w)) = false) ->
  exists has_combinatorial found_pii,
    detect_combinatorial_pii data = Ok (has_combinatorial, found_pii)
    /\ ~ In "device_id" found_pii /\ ~ In "ip_address" found_pii.
Proof.
  intros E S C N. apply dict_getitem_find in E.
  assert (L : linked_b data = false).
  { unfold linked_b, name_signal, email_signal. rewrite E.
    apply andb_false_iff. right. apply orb_false_iff. split.
    - destruct (dict_find "name" data) as [w|] eqn:F; [|reflexivity].
      apply N. now apply dict_getitem_find.
    - destruct (matches email_pattern (str v)) eqn:M; [|reflexivity].
      apply email_starts_with_local in M. destruct M as (c' & t' & Q & M).
      rewrite S in Q. injection Q as <- _.
      apply email_local_not_space in M. congruence. }
  eexists _, _. split; [apply detect_spec|].
  split; intros I; apply found_of_in in I; destruct I as (x & _ & I);
    rewrite step_keys_device in I by reflexivity;
    rewrite L, andb_false_r in I; destruct I.
Qed.

Lemma untrimmed_email_links_no_device_witness :
  exists has_combinatorial found_pii,
    detect_combinatorial_pii
      [("email", VStr " asha@example.com"); ("device_id", VStr "abc123")]
    = Ok (has_combinatorial, found_pii)
    /\ ~ In "device_id" found_pii /\ ~ In "ip_address" found_pii.
Proof.
  apply (untrimmed_email_links_no_device
           [("email", VStr " asha@example.com"); ("device_id", VStr "abc123")]
           (VStr " asha@example.com") " " "asha@example.com").
  - reflexivity.
  - reflexivity.
  - reflexivity.
  - intros w H. discriminate H.
Defined.

Example untrimmed_email_examples :
  detect_combinatorial_pii
    [("email", VStr " asha@example.com"); ("device_id", VStr "abc123")]
  = Ok (false, ["email"])
  /\ detect_combinatorial_pii
       [("email", VStr "asha@example.com"); ("device_id", VStr "abc123")]
     = Ok (true, ["email"; "device_id"])
  /\ process_record
       [("email", VStr " asha@example.com"); ("device_id", VStr "abc123")]
     = Ok ([("email", VStr " asha@example.com"); ("device_id", VStr "abc123")],
           false).
Proof. repeat split; vm_compute; reflexivity. Qed.

(* ===================================================================== *)
(** * format_json_for_csv *)
(* ===================================================================== *)

Lemma doubled_quotes (s : pystr) :
  quotes_paired (replace Json.quote [Json.quote; Json.quote] s) = true
  /\ unquote_csv (replace Json.quote [Json.quote; Json.quote] s) = s.
Proof.
  unfold replace. induction s as [|c s [IH1 IH2]]; [split; reflexivity|].
  cbn [flat_map]. destruct (Ascii.eqb c Json.quote) eqn:E.
  - apply Ascii.eqb_eq in E. subst c. cbn [app quotes_paired unquote_csv].
    rewrite Ascii.eqb_refl. cbn [andb]. split; [exact IH1|now rewrite IH2].
  - cbn [app quotes_paired unquote_csv]. rewrite E.
    split; [exact IH1|now rewrite IH2].
Qed.

(** X15. In the text returned by [format_json_for_csv] every quote is
    doubled, so the quotes come in pairs, and reading each pair back as one
    quote (as a CSV reader does inside a quoted field) gives exactly the
    JSON text that [json.dumps] produced for the record. *)
Theorem csv_quoting_round_trip (data : dict) :
  quotes_paired (format_json_for_csv data) = true
  /\ unquote_csv (format_json_for_csv data) = Json.dumps "," ": " data.
Proof. unfold format_json_for_csv. apply doubled_quotes. Qed.

Lemma escape_char_printable (c : ascii) :
  forallb printable (Json.escape_char c) = true.
Proof. each_char c. Qed.

Lemma uint_printable (d : Decimal.uint) :
  forallb printable (list_ascii_of_string (NilEmpty.string_of_uint d)) = true.
Proof. induction d; cbn [NilEmpty.string_of_uint list_ascii_of_string forallb]; auto. Qed.

Lemma int_printable (z : Z) : forallb printable (str (VInt z)) = true.
Proof.
  cbn [str].
  assert (U : forall d,
             forallb printable
               (list_ascii_of_string (NilZero.string_of_uint d)) = true).
  { intros d. destruct d; try apply uint_printable. reflexivity. }
  destruct z; cbn [Z.to_int NilZero.string_of_int]; apply U.
Qed.

Lemma encode_str_printable (s : pystr) :
  forallb printable (Json.encode_str s) = true.
Proof.
  unfold Json.encode_str. rewrite !forallb_app.
  apply andb_true_iff. split; [reflexivity|].
  apply andb_true_iff. split; [|reflexivity].
  induction s as [|c s IH]; [reflexivity|].
  cbn [flat_map]. rewrite forallb_app, escape_char_printable. exact IH.
Qed.

Lemma encode_value_printable (v : pyobj) :
  forallb printable (Json.encode_value v) = true.
Proof.
  destruct v as [|[|]|z|s]; try reflexivity.
  - apply int_printable.
  - apply encode_str_printable.
Qed.

Lemma join_printable (sep : pystr) (parts : list pystr) :
  forallb printable sep = true ->
  (forall p, In p parts -> forallb printable p = true) ->
  forallb printable (Json.join sep parts) = true.
Proof.
  intros S. induction parts as [|p rest IH]; intros H; [reflexivity|].
  destruct rest as [|q rest]; [apply H; now left|].
  change (Json.join sep (p :: q :: rest))
    with (p ++ sep ++ Json.join sep (q :: rest)).
  rewrite !forallb_app, S, (H p) by now left.
  cbn [andb]. apply IH. intros x I. apply H. now right.
Qed.

Lemma dumps_printable (data : dict) :
  forallb printable (Json.dumps "," ": " data) = true.
Proof.
  unfold Json.dumps. rewrite !forallb_app.
  apply andb_true_iff. split; [reflexivity|].
  apply andb_true_iff. split; [|reflexivity].
  apply join_printable; [reflexivity|].
  intros p I. apply in_map_iff in I. destruct I as ([k v] & <- & _).
  cbn [fst snd]. rewrite !forallb_app.
  now rewrite encode_str_printable, encode_value_printable.
Qed.

(** X16. The text returned by [format_json_for_csv] consists of printable
    ASCII characters only (SPACE to ~), whatever the keys and values of the
    record hold: in particular it contains no line break, so the row that
    carries it stays on one line. *)
Theorem csv_text_is_printable_ascii (data : dict) :
  forallb printable (format_json_for_csv data) = true
  /\ existsb (is_code 10) (format_json_for_csv data) = false
  /\ existsb (is_code 13) (format_json_for_csv data) = false.
Proof.
  assert (P : forall c, In c (format_json_for_csv data) -> printable c = true).
  { intros c I.
    unfold format_json_for_csv, replace in I. apply in_flat_map in I.
    destruct I as (x & X & I).
    pose proof (dumps_printable data) as D. rewrite forallb_forall in D.
    specialize (D x X).
    destruct (Ascii.eqb x Json.quote).
    - cbn [In] in I. destruct I as [<-|[<-|[]]]; reflexivity.
    - destruct I as [<-|[]]. exact D. }
  split; [now apply forallb_forall|].
  split.
  - destruct (existsb (is_code 10) (format_json_for_csv data)) eqn:E;
      [|reflexivity].
    apply existsb_exists in E. destruct E as (c & I & Q).
    apply P in I. revert I Q. unfold printable. each_char c.
  - destruct (existsb (is_code 13) (format_json_for_csv data)) eqn:E;
      [|reflexivity].
    apply existsb_exists in E. destruct E as (c & I & Q).
    apply P in I. revert I Q. unfold printable. each_char c.
Qed.

Example format_json_examples :
  Json.dumps "," ": " [("name", VStr "AXXX RXXXX"); ("age", VInt 30)]
  = "{" ++ [Json.quote] ++ "name" ++ [Json.quote] ++ ": " ++ [Json.quote]
    ++ "AXXX RXXXX" ++ [Json.quote] ++ "," ++ [Json.quote] ++ "age"
    ++ [Json.quote] ++ ": 30}"
  /\ format_json_for_csv [("n", VNone)]
     = "{" ++ [Json.quote; Json.quote] ++ "n" ++ [Json.quote; Json.quote]
       ++ ": null}"
  /\ Json.dumps "," ": " [] = "{}"
  /\ Json.encode_str [ascii_of_nat 10; ascii_of_nat 233]
     = [Json.quote] ++ [Json.backslash] ++ "n" ++ [Json.backslash] ++ "u00e9"
       ++ [Json.quote].
Proof. repeat split; vm_compute; reflexivity. Qed.

(* ===================================================================== *)
(** * Detected fields are masked *)
(* ===================================================================== *)

(** X17. For a record, every field on which standalone detection fires is
    stored masked in the output of [process_record]; and when no field is
    standalone PII and the combinatorial detector reports PII, every field
    it reports is stored masked. The stored value is what [mask_value]
    returns for the field name and the string form of the input value. *)
Theorem detected_fields_are_masked (record : dict) :
  wf_dict record ->
  exists out is_pii,
    process_record record = Ok (out, is_pii)
    /\ (forall k v,
           In (k, v) record -> is_standalone_pii k v = true ->
           exists m, mask_value k (VStr (str v)) = Ok m /\ In (k, m) out)
    /\ ((forall k v, In (k, v) record -> is_standalone_pii k v = false) ->
        forall found_pii,
          detect_combinatorial_pii record = Ok (true, found_pii) ->
          forall k v,
            In k found_pii -> In (k, v) record ->
            exists m, mask_value k (VStr (str v)) = Ok m /\ In (k, m) out).
Proof.
  intros W. rewrite process_record_spec by exact W.
  destruct (existsb hit record) eqn:H.
  - eexists _, _. split; [reflexivity|]. split.
    + intros k v I S. exists (masked k v). split; [apply mask_value_masked|].
      apply in_map_iff. exists (k, v). split; [|exact I].
      unfold first_pass. rewrite hit_standalone, S. reflexivity.
    + intros N. rewrite (no_hit _ N) in H. discriminate.
  - rewrite detect_spec.
    destruct (2 <=? len (found_of record)) eqn:L.
    + eexists _, _. split; [reflexivity|]. split.
      * intros k v I S. exfalso.
        assert (X : existsb hit record = true) by (apply existsb_hit; eauto).
        congruence.
      * intros _ f Q k v F I. injection Q as <-.
        exists (masked k v). split; [apply mask_value_masked|].
        apply dict_find_in. apply second_pass_found.
        -- exact F.
        -- now apply in_dict_find.
        -- apply found_of_in in F. destruct F as (v' & I' & S).
           apply step_keys_in in S. destruct S as (_ & T & _).
           pose proof (in_dict_find _ _ _ W I) as D1.
           pose proof (in_dict_find _ _ _ W I') as D2.
           rewrite D1 in D2. injection D2 as <-. exact T.
    + eexists _, _. split; [reflexivity|]. split.
      * intros k v I S. exfalso.
        assert (X : existsb hit record = true) by (apply existsb_hit; eauto).
        congruence.
      * intros _ f Q. discriminate Q.
Qed.

Lemma detected_fields_are_masked_witness :
  exists out is_pii,
    process_record [("phone", VStr "9876543210"); ("name", VStr "Asha Rao");
                    ("email", VStr "asha@example.com")] = Ok (out, is_pii)
    /\ (forall k v,
           In (k, v) [("phone", VStr "9876543210"); ("name", VStr "Asha Rao");
                      ("email", VStr "asha@example.com")] ->
           is_standalone_pii k v = true ->
           exists m, mask_value k (VStr (str v)) = Ok m /\ In (k, m) out)
    /\ ((forall k v,
            In (k, v) [("phone", VStr "9876543210"); ("name", VStr "Asha Rao");
                       ("email", VStr "asha@example.com")] ->
            is_standalone_pii k v = false) ->
        forall found_pii,
          detect_combinatorial_pii
            [("phone", VStr "9876543210"); ("name", VStr "Asha Rao");
             ("email", VStr "asha@example.com")] = Ok (true, found_pii) ->
          forall k v,
            In k found_pii ->
            In (k, v) [("phone", VStr "9876543210"); ("name", VStr "Asha Rao");
                       ("email", VStr "asha@example.com")] ->
            exists m, mask_value k (VStr (str v)) = Ok m /\ In (k, m) out).
Proof.
  exact (detected_fields_are_masked _ wf_phone_name).
Defined.

(** X18. A combinatorial PII verdict on a record always rests on at least
    two different fields of the record, each with a non-empty value and
    each named [name], [email], [address], [device_id] or [ip_address]. *)
Theorem combinatorial_needs_two_fields (data : dict) (found_pii : list pystr) :
  wf_dict data ->
  detect_combinatorial_pii data = Ok (true, found_pii) ->
  exists k1 v1 k2 v2,
    k1 <> k2
    /\ In (k1, v1) data /\ truthy v1 = true
    /\ key_in k1 contextual_fields = true
    /\ In (k2, v2) data /\ truthy v2 = true
    /\ key_in k2 contextual_fields = true.
Proof.
  intros W. rewrite detect_spec. intros Q. injection Q as L <-.
  pose proof (found_nodup _ W) as N.
  destruct (found_of data) as [|k1 [|k2 rest]] eqn:F; try discriminate L.
  assert (I1 : In k1 (found_of data)) by (rewrite F; now left).
  assert (I2 : In k2 (found_of data)) by (rewrite F; right; now left).
  pose proof (found_contextual _ _ I1) as C1.
  pose proof (found_contextual _ _ I2) as C2.
  apply found_of_in in I1. destruct I1 as (v1 & J1 & S1).
  apply found_of_in in I2. destruct I2 as (v2 & J2 & S2).
  apply step_keys_in in S1. apply step_keys_in in S2.
  exists k1, v1, k2, v2. split; [|tauto].
  inversion N as [|? ? X _]; subst. intros ->. apply X. now left.
Qed.

Lemma wf_name_email :
  wf_dict [("name", VStr "Asha Rao"); ("email", VStr "asha@example.com")].
Proof.
  unfold wf_dict. cbn [keys map fst].
  repeat constructor; cbn [In]; intuition discriminate.
Defined.

Lemma combinatorial_needs_two_fields_witness :
  exists k1 v1 k2 v2,
    k1 <> k2
    /\ In (k1, v1) [("name", VStr "Asha Rao"); ("email", VStr "asha@example.com")]
    /\ truthy v1 = true /\ key_in k1 contextual_fields = true
    /\ In (k2, v2) [("name", VStr "Asha Rao"); ("email", VStr "asha@example.com")]
    /\ truthy v2 = true /\ key_in k2 contextual_fields = true.
Proof.
  apply (combinatorial_needs_two_fields _ ["name"; "email"] wf_name_email).
  vm_compute. reflexivity.
Defined.

(* ===================================================================== *)
(** * What is_full_name accepts *)
(* ===================================================================== *)

Lemma replace_drops (old : ascii) (s : pystr) :
  replace old [] s = filter (fun c => negb (Ascii.eqb c old)) s.
Proof.
  unfold replace. induction s as [|c s IH]; [reflexivity|].
  cbn [flat_map filter]. destruct (Ascii.eqb c old); cbn [negb app]; now rewrite IH.
Qed.

Lemma alpha_is_name_char (c : ascii) :
  isalpha c = true ->
  name_char c = true /\ Ascii.eqb c "-" = false /\ Ascii.eqb c "'" = false.
Proof. each_char c. Qed.

Lemma name_char_cases (c : ascii) :
  name_char c = true ->
  isalpha c = true \/ Ascii.eqb c "-" = true \/ Ascii.eqb c "'" = true.
Proof.
  unfold name_char. intros H. apply orb_true_iff in H. destruct H as [H|H]; auto.
  apply orb_true_iff in H. tauto.
Qed.

Lemma name_part_ok_iff (part : pystr) :
  name_part_ok part = true
  <-> (forall c, In c part -> name_char c = true)
      /\ exists c, In c part /\ isalpha c = true.
Proof.
  unfold name_part_ok. rewrite !replace_drops.
  induction part as [|c part IH].
  - split; [discriminate|]. intros [_ (c & [] & _)].
  - cbn [filter].
    destruct (Ascii.eqb c "-") eqn:E1; cbn [negb].
    { rewrite IH. split.
      - intros [A (x & I & X)]. split; [|exists x; split; [now right|exact X]].
        intros y [<-|I']; [|now apply A].
        unfold name_char. rewrite E1. now rewrite orb_true_r.
      - intros [A (x & [<-|I] & X)].
        + apply alpha_is_name_char in X. destruct X as (_ & X & _). congruence.
        + split; [intros y I'; apply A; now right|now exists x]. }
    cbn [filter].
    destruct (Ascii.eqb c "'") eqn:E2; cbn [negb].
    { rewrite IH. split.
      - intros [A (x & I & X)]. split; [|exists x; split; [now right|exact X]].
        intros y [<-|I']; [|now apply A].
        unfold name_char. rewrite E2. now rewrite orb_true_r.
      - intros [A (x & [<-|I] & X)].
        + apply alpha_is_name_char in X. destruct X as (_ & _ & X). congruence.
        + split; [intros y I'; apply A; now right|now exists x]. }
    unfold str_isalpha. cbn [null negb forallb andb]. split.
    + intros H. apply andb_true_iff in H. destruct H as [H1 H2]. split.
      * intros y [<-|I]; [now apply alpha_is_name_char|].
        rewrite forallb_forall in H2.
        destruct (Ascii.eqb y "-") eqn:Y1;
          [unfold name_char; rewrite Y1; now rewrite orb_true_r|].
        destruct (Ascii.eqb y "'") eqn:Y2;
          [unfold name_char; rewrite Y2; now rewrite orb_true_r|].
        apply alpha_is_name_char, H2.
        apply filter_In. split; [|now rewrite Y2].
        apply filter_In. split; [exact I|now rewrite Y1].
      * exists c. split; [now left|exact H1].
    + intros [A _]. apply andb_true_iff. split.
      * destruct (name_char_cases c (A c (or_introl eq_refl))) as [X|[X|X]];
          [exact X|congruence|congruence].
      * apply forallb_forall. intros y I.
        apply filter_In in I. destruct I as [I Y2].
        apply filter_In in I. destruct I as [I Y1].
        destruct (name_char_cases y (A y (or_intror I))) as [X|[X|X]];
          [exact X|rewrite X in Y1; discriminate|rewrite X in Y2; discriminate].
Qed.

(** X19. [is_full_name] accepts a string exactly when, whitespace at both
    ends aside, it splits into at least 2 whitespace-separated tokens,
    every character of every token is a letter, a hyphen or an apostrophe,
    and every token holds at least one letter (a token made of hyphens and
    apostrophes alone is rejected). *)
Theorem full_name_iff_tokens_of_letters (s : pystr) :
  is_full_name (VStr s) = true
  <-> 2 <= len (split (strip s))
      /\ forall token,
           In token (split (strip s)) ->
           (forall c, In c token -> name_char c = true)
           /\ exists c, In c token /\ isalpha c = true.
Proof.
  unfold is_full_name.
  destruct (2 <=? len (split (strip s))) eqn:L.
  - apply Nat.leb_le in L. rewrite forallb_forall. split.
    + intros H. split; [exact L|]. intros token I.
      now apply name_part_ok_iff, H.
    + intros [_ H] token I. now apply name_part_ok_iff, H.
  - apply Nat.leb_gt in L. split; [discriminate|]. intros [L' _]. lia.
Qed.

Example full_name_examples :
  is_full_name (VStr "  Asha   Rao ") = true
  /\ is_full_name (VStr "Asha -- Rao") = false
  /\ is_full_name (VStr "Asha Rao2") = false
  /\ is_full_name (VStr "Asha") = false
  /\ is_full_name (VStr "Mary-Ann O'Neil") = true
  /\ is_full_name (VInt 12) = false.
Proof. repeat split; vm_compute; reflexivity. Qed.

(* ===================================================================== *)
(** * A full name with a device id and an ip address *)
(* ===================================================================== *)







Section ReportOfNameWithDeviceAndIp.

Variable record : dict.
Variables vn vd vi : pyobj.
Hypothesis wf : wf_dict record.
Hypothesis has_name : In ("name", vn) record.
Hypothesis name_shaped : is_full_name vn = true.
Hypothesis has_device : In ("device_id", vd) record.
Hypothesis device_nonempty : truthy vd = true.
Hypothesis has_ip : In ("ip_address", vi) record.
Hypothesis ip_nonempty : truthy vi = true.





End ReportOfNameWithDeviceAndIp.




Example name_device_ip_masked_record :
  process_record
    [("name", VStr "Asha Rao"); ("device_id", VStr "abc123");
     ("ip_address", VStr "10.0.0.1")]
  = Ok ([("name", VStr "AXXX RXXXX"); ("device_id", VStr "[REDACTED_PII]");
         ("ip_address", VStr "[REDACTED_PII]")], true)
  /\ process_record
       [("name", VStr "Asha Rao"); ("device_id", VInt 42);
        ("ip_address", VStr "10.0.0.1"); ("address", VStr "12, MG Road")]
     = Ok ([("name", VStr "AXXX RXXXX"); ("device_id", VStr "[REDACTED_PII]");
            ("ip_address", VStr "[REDACTED_PII]");
            ("address", VStr "12, MG Road")], true).
Proof. split; vm_compute; reflexivity. Qed.
